(** * Backbone_Validation/main.py: error statistics of the counter and
    predictor networks over the validation windows.

    The development embeds [compute_error_stats] and [run_model].  Tensors of the 4-D validation grid are dense row-major
    arrays (stdpp lists updated by index); Python exceptions are an error
    monad; the arithmetic of tensor elements is an interface ([Scalar]),
    with the few facts of IEEE arithmetic that the proofs use stated as
    laws ([ScalarLaws]) and shown for an exact instance at the end of the
    definitions.  Of the charts, the positions and heights of the bars of
    [plot_stats] and the exceptions that the subplots of [run_model] can
    raise are embedded; the drawing itself and checkpoint loading are left
    out. *)

From Stdlib Require Import List Arith Lia Bool ZArith QArith Qabs Qround.
From stdpp Require Import base list.
Import ListNotations.

Local Open Scope nat_scope.

(** ** Python exceptions *)

Inductive exn : Type :=
| ZeroDivisionError   (* [i % 0], [x / 0.0] on Python floats *)
| ValueError          (* np.unravel_index out of bounds, [round] of NaN *)
| IndexError          (* tensor indexing out of range *)
| RuntimeError        (* torch.reshape to a shape of another size *)
| AttributeError      (* [.item()] on a Python float *)
| TypeError           (* [axs[i]] on a single Axes *)
| OverflowError.      (* [round] of an infinite Python float *)

Inductive result (A : Type) : Type :=
| Ok (a : A)
| Raise (e : exn).

Arguments Ok {A} a.
Arguments Raise {A} e.

#[global] Instance result_ret : MRet result := fun A a => Ok a.

#[global] Instance result_bind : MBind result := fun A B f m =>
  match m with
  | Ok a => f a
  | Raise e => Raise e
  end.

(** [for x in xs: st = body st x], stopping at the first exception. *)
Fixpoint for_each {A S : Type} (body : S -> A -> result S) (xs : list A) (st : S)
  : result S :=
  match xs with
  | [] => Ok st
  | x :: xs' => st' ← body st x; for_each body xs' st'
  end.

(** ** Arithmetic of tensor elements *)

Class Scalar (scalar : Type) : Type := {
  fzero : scalar;                       (* 0.0 *)
  fone : scalar;                        (* 1.0 *)
  fhundred : scalar;                    (* 100 *)
  fmilli : scalar;                      (* 10**(-3) *)
  ftenth_nano : scalar;                 (* 10**(-10) *)
  fnan : scalar;                        (* float('nan') *)
  fadd : scalar -> scalar -> scalar;
  fsub : scalar -> scalar -> scalar;
  fmul : scalar -> scalar -> scalar;
  fdiv : scalar -> scalar -> scalar;
  fabs : scalar -> scalar;
  fround : scalar -> scalar;            (* torch.round *)
  fgt : scalar -> scalar -> bool;       (* > *)
  fle : scalar -> scalar -> bool;       (* <= *)
  feqb : scalar -> scalar -> bool;      (* == *)
  fmean : list scalar -> scalar;        (* torch.mean along one dimension *)
  fof_nat : nat -> scalar;              (* a count as a float *)
  fis_nan : scalar -> bool;             (* math.isnan *)
  fis_inf : scalar -> bool              (* math.isinf *)
}.

(** The facts of floating-point arithmetic the proofs rely on. *)
Class ScalarLaws {scalar : Type} (FS : Scalar scalar) : Prop := {
  (* the mean of a single element is that element *)
  fmean_singleton : forall x : scalar, fmean [x] = x;
  (* 0.0 > 0.0 is false *)
  fgt_zero_zero : fgt fzero fzero = false;
  (* a rounded value is positive exactly when it is at least one *)
  fround_pos_ge_one : forall x : scalar, fgt (fround x) fzero = fle fone (fround x);
  (* NaN is not the value 0.0 *)
  fnan_neq_zero : fnan <> fzero
}.

(** ** The 4-D grid: concentration, duration, diameter, window index *)

Definition shape4 : Type := (nat * nat * nat * nat)%type.
Definition cell : Type := (nat * nat * nat * nat)%type.

Definition grid_size (s : shape4) : nat :=
  let '(a, b, c, d) := s in a * b * c * d.

Definition in_shape (s : shape4) (x : cell) : bool :=
  let '(a, b, c, d) := s in
  let '(i, j, k, l) := x in
  (i <? a) && (j <? b) && (k <? c) && (l <? d).

(** np.unravel_index(i, shape) in C (row-major) order: the index is checked
    against the size of the array, then the coordinates are peeled off from
    the last dimension to the first. *)
Definition unravel_index (i : nat) (s : shape4) : result cell :=
  let '(a, b, c, d) := s in
  if i <? grid_size s then
    let l := i mod d in
    let i1 := i / d in
    let k := i1 mod c in
    let i2 := i1 / c in
    let j := i2 mod b in
    let i3 := i2 / b in
    Ok (i3, j, k, l)
  else Raise ValueError.

(** Offset of a cell in the contiguous row-major storage of a tensor. *)
Definition ravel (s : shape4) (x : cell) : nat :=
  let '(_, b, c, d) := s in
  let '(i, j, k, l) := x in
  ((i * b + j) * c + k) * d + l.

Section Program.
Context {scalar : Type} {FS : Scalar scalar}.

(** A float tensor over the grid: its shape and its storage. *)
Record tensor : Type := Tensor {
  dims : shape4;
  data : list scalar
}.

(** torch.zeros(shape) *)
Definition zeros (s : shape4) : tensor :=
  Tensor s (replicate (grid_size s) fzero).

(** t[i, j, k, l] *)
Definition tensor_get (t : tensor) (x : cell) : result scalar :=
  if in_shape (dims t) x then
    match data t !! ravel (dims t) x with
    | Some v => Ok v
    | None => Raise IndexError
    end
  else Raise IndexError.

(** t[i, j, k, l] = v *)
Definition tensor_set (t : tensor) (x : cell) (v : scalar) : result tensor :=
  if in_shape (dims t) x then
    Ok (Tensor (dims t) (<[ravel (dims t) x := v]> (data t)))
  else Raise IndexError.

(** Elementwise sum of two tensors of one shape. *)
Definition tensor_add (t u : tensor) : tensor :=
  Tensor (dims t) (zip_with fadd (data t) (data u)).

(** The tensor has shape [s] and its storage has one slot per cell. *)
Definition tensor_wf (s : shape4) (t : tensor) : Prop :=
  dims t = s /\ length (data t) = grid_size s.

(** The in-place update, for a cell inside the shape. *)
Definition tensor_put (t : tensor) (x : cell) (v : scalar) : tensor :=
  Tensor (dims t) (<[ravel (dims t) x := v]> (data t)).

(** ** The validation loader, the networks and the command line *)

(** What [get_signal_window] and [get_batch] return for one window; the
    label holds the pulse count, the average translocation duration and the
    average amplitude (labels[0], labels[1], labels[2]). *)
Record window_data : Type := Window {
  times : list scalar;
  noisy_signals : list scalar;
  clean_signals : list scalar;
  label_count : scalar;
  label_duration : scalar;
  label_amplitude : scalar
}.

(** The attributes and methods of Artificial_DataLoader that main.py uses.
    The class is supplied by another module; its values are parameters. *)
Record loader : Type := Loader {
  shape : shape4;
  total_number_of_windows : nat;
  batch_size : nat;
  get_signal_window : cell -> window_data;
  get_batch : list window_data
}.

(** The [arguments] dictionary.  The networks are in eval mode under
    no_grad and act on each row of a batch on its own, so a network is a
    function of one signal and a batch evaluation maps it over the rows. *)
Record arguments : Type := MkArguments {
  model_1 : list scalar -> scalar;
  model_2 : list scalar -> scalar -> scalar * scalar;
  VADL : loader
}.

Record args : Type := Args {
  world_size : nat;
  local_rank : nat;
  distributed : bool
}.

(** One network invocation, with the batch it was given. *)
Inductive call : Type :=
| CounterCall (signals : list (list scalar))
| PredictorCall (signals : list (list scalar)) (external : list scalar).

(** abs((truth - prediction) / truth) * 100 *)
Definition pct_error (truth prediction : scalar) : scalar :=
  fmul (fabs (fdiv (fsub truth prediction) truth)) fhundred.

(** mean = torch.mean(noisy_signals, 1, True); noisy_signals - mean *)
Definition center (signal : list scalar) : list scalar :=
  let mean := fmean signal in
  map (fun v => fsub v mean) signal.

(** ** compute_error_stats *)

(** The local variables of [compute_error_stats] that the loop updates,
    and the network invocations made so far. *)
Record stats : Type := Stats {
  count_errors : tensor;
  duration_errors : tensor;
  amplitude_errors : tensor;
  improper_measures : nat;
  trace : list call
}.

Definition init_stats (v : loader) : stats :=
  Stats (zeros (shape v)) (zeros (shape v)) (zeros (shape v)) 0 [].

(** The body of the loop for one window of the local shard. *)
Definition process_window (a : arguments) (st : stats) (x : cell) : result stats :=
  let w := get_signal_window (VADL a) x in
  let noisy := center (noisy_signals w) in
  if fgt (label_count w) fzero then
    let num_of_pulses := model_1 a noisy in
    let external := fround num_of_pulses in
    let outputs := model_2 a noisy external in
    let errors0 := fmean [pct_error (label_duration w) (fmul (fst outputs) fmilli)] in
    let errors1 := fmean [pct_error (label_amplitude w) (fmul (snd outputs) ftenth_nano)] in
    de ← tensor_set (duration_errors st) x errors0;
    ae ← tensor_set (amplitude_errors st) x errors1;
    let error := fmean [pct_error (label_count w) external] in
    ce ← tensor_set (count_errors st) x error;
    Ok (Stats ce de ae (improper_measures st)
          (trace st ++ [CounterCall [noisy]; PredictorCall [noisy] [external]]))
  else
    let num_of_pulses := model_1 a noisy in
    let external := fround num_of_pulses in
    let tr := trace st ++ [CounterCall [noisy]] in
    if fgt external fzero then
      ce ← tensor_set (count_errors st) x fnan;
      de ← tensor_set (duration_errors st) x fnan;
      ae ← tensor_set (amplitude_errors st) x fnan;
      Ok (Stats ce de ae (improper_measures st + 1) tr)
    else
      ce ← tensor_set (count_errors st) x fzero;
      de ← tensor_set (duration_errors st) x fzero;
      ae ← tensor_set (amplitude_errors st) x fzero;
      Ok (Stats ce de ae (improper_measures st) tr).

(** One iteration of [for i in range(total_number_of_windows)]. *)
Definition loop_body (ar : args) (a : arguments) (st : stats) (i : nat) : result stats :=
  if world_size ar =? 0 then Raise ZeroDivisionError
  else if i mod world_size ar =? local_rank ar then
    x ← unravel_index i (shape (VADL a));
    process_window a st x
  else Ok st.

(** The loop of [compute_error_stats]: the tensors of the local rank. *)
Definition accumulate (ar : args) (a : arguments) : result stats :=
  for_each (loop_body ar a) (seq 0 (total_number_of_windows (VADL a)))
    (init_stats (VADL a)).

(** Modelled from the spec: Utilities.reduce_tensor_sum_dest is defined in
    a module that is not part of the sources at hand.  The spec describes
    the reduction as an all-reduce sum across processes: every process
    receives the elementwise sum of the tensors contributed by all the
    processes.  [contributions] lists the tensor of each rank, in rank
    order. *)
Definition reduce_tensor_sum_dest (contributions : list tensor) (dest : nat)
  : result tensor :=
  match contributions with
  | [] => Raise RuntimeError
  | t :: ts => Ok (fold_left tensor_add ts t)
  end.

Definition with_rank (ar : args) (r : nat) : args :=
  Args (world_size ar) r (distributed ar).

(** What [compute_error_stats] returns. *)
Record error_stats : Type := ErrorStats {
  reduced_count_error : tensor;
  reduced_duration_error : tensor;
  reduced_amplitude_error : tensor;
  returned_improper_measures : nat
}.

(** Every process runs the same program on the same loader and networks;
    the collective call sees the tensors accumulated by all the ranks. *)
Definition compute_error_stats (ar : args) (a : arguments) : result error_stats :=
  st ← accumulate ar a;
  if distributed ar then
    peers ← mapM (fun r => accumulate (with_rank ar r) a) (seq 0 (world_size ar));
    rc ← reduce_tensor_sum_dest (map count_errors peers) 0;
    rd ← reduce_tensor_sum_dest (map duration_errors peers) 0;
    ra ← reduce_tensor_sum_dest (map amplitude_errors peers) 0;
    Ok (ErrorStats rc rd ra (improper_measures st))
  else
    Ok (ErrorStats (count_errors st) (duration_errors st) (amplitude_errors st)
          (improper_measures st)).

(** *** The loop, window by window

    The definitions below name what one iteration reads and writes; the
    lemmas [process_window_ok] and [accumulate_eq] show that the loop
    computes exactly these. *)

(** The coordinates of a flat index, without the bounds check. *)
Definition cell_of (s : shape4) (i : nat) : cell :=
  let '(_, b, c, d) := s in
  (i / d / c / b, (i / d / c) mod b, (i / d) mod c, i mod d).

(** The flat indices that pass the test [i % world_size == local_rank]. *)
Definition shard (ar : args) (total : nat) : list nat :=
  List.filter (fun i => i mod world_size ar =? local_rank ar) (seq 0 total).

(** The mean-centered noisy signal of the window at cell [x]. *)
Definition centered_signal (a : arguments) (x : cell) : list scalar :=
  center (noisy_signals (get_signal_window (VADL a) x)).

(** The output of the counter on that signal, rounded. *)
Definition rounded_count (a : arguments) (x : cell) : scalar :=
  fround (model_1 a (centered_signal a x)).

(** The output of the predictor given that rounded count. *)
Definition predicted (a : arguments) (x : cell) : scalar * scalar :=
  model_2 a (centered_signal a x) (rounded_count a x).

(** labels[0] > 0 *)
Definition has_pulses (a : arguments) (x : cell) : bool :=
  fgt (label_count (get_signal_window (VADL a) x)) fzero.

(** The window falls in the branch that increments improper_measures. *)
Definition improper (a : arguments) (x : cell) : bool :=
  negb (has_pulses a x) && fgt (rounded_count a x) fzero.

Definition count_value (a : arguments) (x : cell) : scalar :=
  if has_pulses a x then
    fmean [pct_error (label_count (get_signal_window (VADL a) x)) (rounded_count a x)]
  else if fgt (rounded_count a x) fzero then fnan else fzero.

Definition duration_value (a : arguments) (x : cell) : scalar :=
  if has_pulses a x then
    fmean [pct_error (label_duration (get_signal_window (VADL a) x))
             (fmul (fst (predicted a x)) fmilli)]
  else if fgt (rounded_count a x) fzero then fnan else fzero.

Definition amplitude_value (a : arguments) (x : cell) : scalar :=
  if has_pulses a x then
    fmean [pct_error (label_amplitude (get_signal_window (VADL a) x))
             (fmul (snd (predicted a x)) ftenth_nano)]
  else if fgt (rounded_count a x) fzero then fnan else fzero.

Definition window_calls (a : arguments) (x : cell) : list call :=
  if has_pulses a x then
    [CounterCall [centered_signal a x];
     PredictorCall [centered_signal a x] [rounded_count a x]]
  else [CounterCall [centered_signal a x]].

Definition apply_window (a : arguments) (st : stats) (x : cell) : stats :=
  Stats (tensor_put (count_errors st) x (count_value a x))
        (tensor_put (duration_errors st) x (duration_value a x))
        (tensor_put (amplitude_errors st) x (amplitude_value a x))
        (if improper a x then improper_measures st + 1 else improper_measures st)
        (trace st ++ window_calls a x).

(** The three tensors have the shape of the loader. *)
Definition stats_wf (s : shape4) (st : stats) : Prop :=
  tensor_wf s (count_errors st) /\ tensor_wf s (duration_errors st) /\
  tensor_wf s (amplitude_errors st).

(** The three quantities, to speak of the three error tensors at once. *)
Inductive quantity : Type := Count | Duration | Amplitude.

Definition errors_of (q : quantity) (st : stats) : tensor :=
  match q with
  | Count => count_errors st
  | Duration => duration_errors st
  | Amplitude => amplitude_errors st
  end.

Definition value_of (q : quantity) (a : arguments) (x : cell) : scalar :=
  match q with
  | Count => count_value a x
  | Duration => duration_value a x
  | Amplitude => amplitude_value a x
  end.

(** The loop over a list of flat indices inside the grid, without the
    error plumbing. *)
Definition apply_windows (a : arguments) (l : list nat) (st : stats) : stats :=
  fold_left (fun st i => apply_window a st (cell_of (shape (VADL a)) i)) l st.

(** The sum, in rank order, of what the tensors hold at one cell. *)
Definition sum_at (ts : list tensor) (x : cell) : result scalar :=
  match ts with
  | [] => Raise RuntimeError
  | t :: rest =>
      fold_left (fun acc u => v ← acc; w ← tensor_get u x; Ok (fadd v w))
        rest (tensor_get t x)
  end.

Definition reduced_of (q : quantity) (es : error_stats) : tensor :=
  match q with
  | Count => reduced_count_error es
  | Duration => reduced_duration_error es
  | Amplitude => reduced_amplitude_error es
  end.

(** What the loop of the process of rank [r] accumulates. *)
Definition rank_stats (ar : args) (a : arguments) (r : nat) : stats :=
  apply_windows a (shard (with_rank ar r) (total_number_of_windows (VADL a)))
    (init_stats (VADL a)).

(** ** run_model: one batch, its subplots and its statistics *)

(** An error accumulator of [run_model]: it starts as the Python float 0.0
    and becomes a 0-dim tensor at the first [+=] of a tensor value. *)
Inductive accumulator : Type :=
| PyFloatZero
| TensorValue (v : scalar).

Definition acc_add (acc : accumulator) (v : scalar) : accumulator :=
  match acc with
  | PyFloatZero => TensorValue (fadd fzero v)
  | TensorValue u => TensorValue (fadd u v)
  end.

(** acc.item(): a Python float has no such method. *)
Definition acc_item (acc : accumulator) : result scalar :=
  match acc with
  | PyFloatZero => Raise AttributeError
  | TensorValue v => Ok v
  end.

(** x / measures on Python floats; [measures] holds a count. *)
Definition py_div (x : scalar) (measures : nat) : result scalar :=
  if measures =? 0 then Raise ZeroDivisionError
  else Ok (fdiv x (fof_nat measures)).

(** torch.where(num_of_pulses.round() == 0.0)[0], rows numbered from [i]. *)
Fixpoint where_round_zero (num_of_pulses : list scalar) (i : nat) : list nat :=
  match num_of_pulses with
  | [] => []
  | n :: rest =>
      if feqb (fround n) fzero then i :: where_round_zero rest (S i)
      else where_round_zero rest (S i)
  end.

(** torch.reshape(num_of_pulses, [batch_size, 1]) *)
Definition reshape_column (xs : list scalar) (rows : nat) : result (list scalar) :=
  if length xs =? rows then Ok xs else Raise RuntimeError.

(** outputs[zero_pulse_indices, :] = 0.0 *)
Definition clear_rows (outputs : list (scalar * scalar)) (rows : list nat)
  : list (scalar * scalar) :=
  fold_left (fun out r => <[r := (fzero, fzero)]> out) rows outputs.

(** What the evaluation part of [run_model] leaves for the subplots and
    the statistics. *)
Record evaluation : Type := Evaluation {
  ev_labels : list window_data;
  ev_num_of_pulses : list scalar;
  zero_pulse_indices : list nat;
  ev_external : list scalar;
  ev_outputs : list (scalar * scalar);
  ev_trace : list call
}.

Definition evaluate_batch (a : arguments) : result evaluation :=
  let batch := get_batch (VADL a) in
  let noisy := map (fun w => center (noisy_signals w)) batch in
  let num_of_pulses := map (model_1 a) noisy in
  let zeros_idx := where_round_zero num_of_pulses 0 in
  shaped ← reshape_column num_of_pulses (batch_size (VADL a));
  let external := map fround shaped in
  let outputs := zip_with (model_2 a) noisy external in
  Ok (Evaluation batch num_of_pulses zeros_idx external (clear_rows outputs zeros_idx)
        [CounterCall noisy; PredictorCall noisy external]).

(** The counters of the statistics loop. *)
Record tally : Type := Tally {
  count_error : accumulator;
  duration_error : accumulator;
  amplitude_error : accumulator;
  measures : nat;
  batch_improper_measures : nat
}.

Definition init_tally : tally :=
  Tally PyFloatZero PyFloatZero PyFloatZero 0 0.

Definition row {A : Type} (xs : list A) (i : nat) : result A :=
  match xs !! i with
  | Some x => Ok x
  | None => Raise IndexError
  end.

(** The body of [for i in range(batch_size)]. *)
Definition tally_body (ev : evaluation) (t : tally) (i : nat) : result tally :=
  w ← row (ev_labels ev) i;
  if feqb (label_count w) fzero then
    if existsb (Nat.eqb i) (zero_pulse_indices ev) then
      Ok (Tally (count_error t) (duration_error t) (amplitude_error t)
            (measures t + 1) (batch_improper_measures t))
    else
      Ok (Tally (count_error t) (duration_error t) (amplitude_error t)
            (measures t) (batch_improper_measures t + 1))
  else
    e ← row (ev_external ev) i;
    o ← row (ev_outputs ev) i;
    Ok (Tally
          (acc_add (count_error t) (pct_error (label_count w) e))
          (acc_add (duration_error t)
             (pct_error (label_duration w) (fmul (fst o) fmilli)))
          (acc_add (amplitude_error t)
             (pct_error (label_amplitude w) (fmul (snd o) ftenth_nano)))
          (measures t + 1) (batch_improper_measures t)).

Definition tally_batch (a : arguments) (ev : evaluation) : result tally :=
  for_each (tally_body ev) (seq 0 (batch_size (VADL a))) init_tally.

(** The two printed lines: the three averages, then the improper count. *)
Record report : Type := Report {
  average_duration_error : scalar;
  average_amplitude_error : scalar;
  average_count_error : scalar;
  reported_improper_measures : nat
}.

Definition print_report (t : tally) : result report :=
  d ← acc_item (duration_error t);
  d' ← py_div d (measures t);
  am ← acc_item (amplitude_error t);
  am' ← py_div am (measures t);
  c ← acc_item (count_error t);
  c' ← py_div c (measures t);
  Ok (Report d' am' c' (batch_improper_measures t)).

(** Python's round(x) of a float, as the titles of the subplots call it:
    the integer is only printed; NaN and the infinities have none. *)
Definition py_round (x : scalar) : result unit :=
  if fis_nan x then Raise ValueError
  else if fis_inf x then Raise OverflowError
  else Ok tt.

(** The body of [for i, batch_element in enumerate(range(batch_size))]:
    [axs[i]] is evaluated first, and with one row plt.subplots has returned
    a single Axes, which cannot be indexed; the title then formats
    round(labels[b, 0].item()) and round(num_of_pulses[b, 0].item()). *)
Definition plot_row (n : nat) (ev : evaluation) (_ : unit) (i : nat) : result unit :=
  if n =? 1 then Raise TypeError
  else
    w ← row (ev_labels ev) i;
    c ← row (ev_num_of_pulses ev) i;
    _ ← py_round (label_count w);
    py_round c.

(** The subplots of the batch, shown for fewer than 21 rows;
    plt.subplots(0, 1) refuses a grid without rows. *)
Definition plot_batch (a : arguments) (ev : evaluation) : result unit :=
  let n := batch_size (VADL a) in
  if n <? 21 then
    if n =? 0 then Raise ValueError
    else for_each (plot_row n ev) (seq 0 n) tt
  else Ok tt.

Definition run_model (a : arguments) : result report :=
  ev ← evaluate_batch a;
  _ ← plot_batch a ev;
  t ← tally_batch a ev;
  print_report t.

(** The subplots of a batch can be drawn: there are 21 rows or more (and
    nothing is drawn), or at least two rows whose label count and counter
    output are finite. *)
Definition plottable (a : arguments) : Prop :=
  batch_size (VADL a) < 21 ->
  2 <= batch_size (VADL a) /\
  forall w, In w (get_batch (VADL a)) ->
    fis_nan (label_count w) = false /\ fis_inf (label_count w) = false /\
    fis_nan (model_1 a (center (noisy_signals w))) = false /\
    fis_inf (model_1 a (center (noisy_signals w))) = false.

(** *** The statistics loop, row by row *)

(** The three per-row lists of an evaluation have [n] rows. *)
Definition evaluation_wf (ev : evaluation) (n : nat) : Prop :=
  length (ev_labels ev) = n /\ length (ev_external ev) = n /\
  length (ev_outputs ev) = n.

(** Row [i] goes to [measures]: its label is not 0.0, or its index is among
    [zero_pulse_indices]. *)
Definition proper_row (ev : evaluation) (i : nat) : bool :=
  match ev_labels ev !! i with
  | Some w =>
      negb (feqb (label_count w) fzero) ||
      existsb (Nat.eqb i) (zero_pulse_indices ev)
  | None => false
  end.

(** Row [i] has a label with pulses: the rows that add a tensor to the three
    error accumulators. *)
Definition labelled_row (ev : evaluation) (i : nat) : bool :=
  match ev_labels ev !! i with
  | Some w => negb (feqb (label_count w) fzero)
  | None => false
  end.

Definition is_tensor (acc : accumulator) : bool :=
  match acc with
  | PyFloatZero => false
  | TensorValue _ => true
  end.

End Program.

(** ** plot_stats: the bars of one 3-D chart

    For every duration [i] the code draws one bar per element of
    [mean[:, i, :].ravel()], at the positions [x, y] obtained by raveling
    [np.meshgrid(np.arange(Cnp), np.arange(Dnp))].  The averaged array is
    taken as a function of its three indices. *)

Definition arange (n : nat) : list nat := seq 0 n.

(** np.meshgrid(xs, ys) with the default 'xy' indexing: two arrays of
    [len(ys)] rows and [len(xs)] columns. *)
Definition meshgrid (xs ys : list nat) : list (list nat) * list (list nat) :=
  (map (fun _ => xs) ys, map (fun y => map (fun _ => y) xs) ys).

(** ndarray.ravel() of a 2-D array, row after row. *)
Definition ravel_rows {A : Type} (rows : list (list A)) : list A := concat rows.

(** mean[:, i, :] of an array of shape (Cnp, Duration, Dnp). *)
Definition duration_slice {A : Type} (mean : nat -> nat -> nat -> A)
    (Cnp Dnp i : nat) : list (list A) :=
  map (fun c => map (fun d => mean c i d) (seq 0 Dnp)) (seq 0 Cnp).

Record bar (A : Type) : Type := Bar { bar_x : nat; bar_y : nat; bar_top : A }.
Arguments Bar {A} _ _ _.
Arguments bar_x {A} _.
Arguments bar_y {A} _.
Arguments bar_top {A} _.

Fixpoint bar3d {A : Type} (x y : list nat) (top : list A) : list (bar A) :=
  match x, y, top with
  | a :: x', b :: y', t :: top' => Bar a b t :: bar3d x' y' top'
  | _, _, _ => []
  end.

(** The bars of the chart of duration [i]; the x axis is labelled 'Cnp' and
    the y axis 'Dnp'. *)
Definition duration_bars {A : Type} (mean : nat -> nat -> nat -> A)
    (Cnp Dnp i : nat) : list (bar A) :=
  let (_xx, _yy) := meshgrid (arange Cnp) (arange Dnp) in
  let x := ravel_rows _xx in
  let y := ravel_rows _yy in
  let top := ravel_rows (duration_slice mean Cnp Dnp i) in
  bar3d x y top.

(** ** An instance of the arithmetic: exact rationals with NaN and infinities

    It follows the IEEE rules for the special values and computes without
    rounding error; the sample runs below use it. *)

Module Exact.

Inductive xrat : Type :=
| XNaN
| XInf (negative : bool)
| XFin (q : Q).

Definition Qltb (a b : Q) : bool := negb (Qle_bool b a).
Definition Qis_zero (a : Q) : bool := Qle_bool a 0 && Qle_bool 0 a.
Definition Qnegative (a : Q) : bool := Qltb a 0.

Definition xneg (a : xrat) : xrat :=
  match a with
  | XNaN => XNaN
  | XInf s => XInf (negb s)
  | XFin q => XFin (Qred (- q))
  end.

Definition xadd (a b : xrat) : xrat :=
  match a, b with
  | XNaN, _ | _, XNaN => XNaN
  | XInf s, XInf s' => if Bool.eqb s s' then XInf s else XNaN
  | XInf s, XFin _ | XFin _, XInf s => XInf s
  | XFin p, XFin q => XFin (Qred (p + q))
  end.

Definition xsub (a b : xrat) : xrat := xadd a (xneg b).

Definition xmul (a b : xrat) : xrat :=
  match a, b with
  | XNaN, _ | _, XNaN => XNaN
  | XInf s, XInf s' => XInf (xorb s s')
  | XInf s, XFin q | XFin q, XInf s =>
      if Qis_zero q then XNaN else XInf (xorb s (Qnegative q))
  | XFin p, XFin q => XFin (Qred (p * q))
  end.

Definition xdiv (a b : xrat) : xrat :=
  match a, b with
  | XNaN, _ | _, XNaN => XNaN
  | XInf _, XInf _ => XNaN
  | XInf s, XFin q => XInf (xorb s (Qnegative q))
  | XFin _, XInf _ => XFin 0
  | XFin p, XFin q =>
      if Qis_zero q then
        if Qis_zero p then XNaN else XInf (Qnegative p)
      else XFin (Qred (p / q))
  end.

Definition xabs (a : xrat) : xrat :=
  match a with
  | XNaN => XNaN
  | XInf _ => XInf false
  | XFin q => XFin (Qred (Qabs q))
  end.

(** Rounding to the nearest integer, ties to the even one. *)
Definition Qround_even (q : Q) : Z :=
  let f := Qfloor q in
  let r := (q - inject_Z f)%Q in
  if Qltb r (1 # 2) then f
  else if Qltb (1 # 2) r then (f + 1)%Z
  else if Z.even f then f else (f + 1)%Z.

Definition xround (a : xrat) : xrat :=
  match a with
  | XFin q => XFin (inject_Z (Qround_even q))
  | _ => a
  end.

Definition xgt (a b : xrat) : bool :=
  match a, b with
  | XNaN, _ | _, XNaN => false
  | XInf s, XInf s' => negb s && s'
  | XInf s, XFin _ => negb s
  | XFin _, XInf s => s
  | XFin p, XFin q => Qltb q p
  end.

Definition xle (a b : xrat) : bool :=
  match a, b with
  | XNaN, _ | _, XNaN => false
  | XInf s, XInf s' => s || negb s'
  | XInf s, XFin _ => s
  | XFin _, XInf s => negb s
  | XFin p, XFin q => Qle_bool p q
  end.

Definition xeqb (a b : xrat) : bool :=
  match a, b with
  | XNaN, _ | _, XNaN => false
  | XInf s, XInf s' => Bool.eqb s s'
  | XFin p, XFin q => Qeq_bool p q
  | _, _ => false
  end.

Definition xof_nat (n : nat) : xrat := XFin (inject_Z (Z.of_nat n)).

Definition xmean (l : list xrat) : xrat :=
  match l with
  | [] => XNaN
  | [x] => x
  | x :: rest => xdiv (fold_left xadd rest x) (xof_nat (length l))
  end.

Definition xis_nan (x : xrat) : bool :=
  match x with
  | XNaN => true
  | _ => false
  end.

Definition xis_inf (x : xrat) : bool :=
  match x with
  | XInf _ => true
  | _ => false
  end.

#[global] Instance xrat_scalar : Scalar xrat := {|
  fzero := XFin 0;
  fone := XFin 1;
  fhundred := XFin 100;
  fmilli := XFin (1 # 1000);
  ftenth_nano := XFin (1 # 10000000000);
  fnan := XNaN;
  fadd := xadd;
  fsub := xsub;
  fmul := xmul;
  fdiv := xdiv;
  fabs := xabs;
  fround := xround;
  fgt := xgt;
  fle := xle;
  feqb := xeqb;
  fmean := xmean;
  fof_nat := xof_nat;
  fis_nan := xis_nan;
  fis_inf := xis_inf
|}.

(** Literals for the sample runs. *)
Definition num (z : Z) : xrat := XFin (inject_Z z).
Definition half : xrat := XFin (1 # 2).

End Exact.

(** ** A small validation set, for the sample runs

    A grid of shape (2, 1, 1, 2) with four windows of two samples each.  The
    sample counter returns the first sample of the centered signal, so the
    window [2c, 0] is counted as [c] pulses; the sample predictor returns the
    rounded count in the units of the networks. *)

Module Sample.
Import Exact.

Definition window_of (first : Z) (count duration amplitude : Z) : window_data :=
  Window [num 0; num 1] [num first; num 0] [num 0; num 0]
    (num count) (num duration) (num amplitude).

(** Two pulses of duration 1 and amplitude 4; the counter says 3/2. *)
Definition w_pulses : window_data := window_of 3 2 1 4.
(** No pulse; the counter says 1. *)
Definition w_empty_counted : window_data := window_of 2 0 0 0.
(** No pulse; the counter says 0. *)
Definition w_empty : window_data := window_of 0 0 0 0.
(** No pulse; the counter says -1. *)
Definition w_empty_negative : window_data := window_of (-2) 0 0 0.

Definition windows (x : cell) : window_data :=
  match x with
  | (0, 0, 0, 0) => w_pulses
  | (0, 0, 0, 1) => w_empty_counted
  | (1, 0, 0, 0) => w_empty
  | _ => w_empty_negative
  end.

Definition vadl : loader :=
  Loader (2, 1, 1, 2) 4 2 windows [w_pulses; w_empty_negative].

Definition counter (signal : list xrat) : xrat :=
  match signal with
  | v :: _ => v
  | [] => XNaN
  end.

Definition predictor (signal : list xrat) (external : xrat) : xrat * xrat :=
  (xmul external (num 1000), xmul external (num 10000000000)).

Definition arguments0 : arguments := MkArguments counter predictor vadl.

(** Two processes; [rank r] is the command line of process [r]. *)
Definition rank (r : nat) : args := Args 2 r true.
(** A single process. *)
Definition single : args := Args 1 0 false.

(** What the loops of the two processes accumulate. *)
Definition stats0 : stats := Eval vm_compute in rank_stats (rank 0) arguments0 0.
Definition stats1 : stats := Eval vm_compute in rank_stats (rank 0) arguments0 1.

(** The same set announced with one window more than the grid holds. *)
Definition vadl_long : loader :=
  Loader (2, 1, 1, 2) 5 2 windows [w_pulses; w_empty_negative].
Definition arguments_long : arguments := MkArguments counter predictor vadl_long.

(** A batch of two windows without pulses. *)
Definition vadl_empty : loader :=
  Loader (2, 1, 1, 2) 4 2 windows [w_empty; w_empty_counted].
Definition arguments_empty : arguments := MkArguments counter predictor vadl_empty.

(** A single process started with --local_rank 1. *)
Definition outsider : args := Args 1 1 false.

End Sample.

(** * Properties *)

(** ** Row-major arithmetic of the grid *)

Lemma grid_size_pos_dims (a b c d i : nat) :
  i < grid_size (a, b, c, d) -> 0 < a /\ 0 < b /\ 0 < c /\ 0 < d.
Proof.
  unfold grid_size. intros H.
  destruct a, b, c, d; try lia; repeat split; lia.
Qed.

Lemma unravel_index_ok (i : nat) (s : shape4) :
  i < grid_size s -> exists x, unravel_index i s = Ok x.
Proof.
  destruct s as [[[a b] c] d]. intros H. unfold unravel_index.
  apply Nat.ltb_lt in H. rewrite H. eauto.
Qed.

Lemma unravel_index_inv (i : nat) (s : shape4) (x : cell) :
  unravel_index i s = Ok x -> i < grid_size s /\ ravel s x = i /\ in_shape s x = true.
Proof.
  destruct s as [[[a b] c] d]. unfold unravel_index.
  destruct (Nat.ltb_spec i (grid_size (a, b, c, d))) as [Hlt|Hge]; [|discriminate].
  intros [= <-]. split; [exact Hlt|].
  destruct (grid_size_pos_dims _ _ _ _ _ Hlt) as (Ha & Hb & Hc & Hd).
  unfold grid_size in Hlt.
  pose proof (Nat.div_mod_eq i d) as E1.
  pose proof (Nat.div_mod_eq (i / d) c) as E2.
  pose proof (Nat.div_mod_eq (i / d / c) b) as E3.
  pose proof (Nat.mod_upper_bound i d ltac:(lia)) as B1.
  pose proof (Nat.mod_upper_bound (i / d) c ltac:(lia)) as B2.
  pose proof (Nat.mod_upper_bound (i / d / c) b ltac:(lia)) as B3.
  assert (B4 : i / d / c / b < a).
  { apply Nat.Div0.div_lt_upper_bound.
    apply Nat.Div0.div_lt_upper_bound.
    apply Nat.Div0.div_lt_upper_bound. lia. }
  split.
  - unfold ravel. nia.
  - unfold in_shape. repeat (apply andb_true_intro; split); apply Nat.ltb_lt; assumption.
Qed.

Lemma in_shape_lt (a b c d i j k l : nat) :
  in_shape (a, b, c, d) (i, j, k, l) = true -> i < a /\ j < b /\ k < c /\ l < d.
Proof.
  unfold in_shape. rewrite !andb_true_iff, !Nat.ltb_lt. tauto.
Qed.

Lemma ravel_lt (s : shape4) (x : cell) :
  in_shape s x = true -> ravel s x < grid_size s.
Proof.
  destruct s as [[[a b] c] d], x as [[[i j] k] l]. intros H.
  apply in_shape_lt in H. destruct H as (Hi & Hj & Hk & Hl).
  unfold ravel, grid_size.
  assert (H1 : i * b + j + 1 <= a * b) by nia.
  assert (H2 : (i * b + j) * c + k + 1 <= a * b * c) by nia.
  nia.
Qed.

Lemma unravel_ravel (s : shape4) (x : cell) :
  in_shape s x = true -> unravel_index (ravel s x) s = Ok x.
Proof.
  intros H. pose proof (ravel_lt s x H) as Hlt.
  destruct s as [[[a b] c] d], x as [[[i j] k] l].
  apply in_shape_lt in H. destruct H as (Hi & Hj & Hk & Hl).
  unfold unravel_index. apply Nat.ltb_lt in Hlt. rewrite Hlt.
  unfold ravel.
  set (n2 := i * b + j). set (n1 := n2 * c + k). set (n := n1 * d + l).
  assert (E1 : n / d = n1).
  { symmetry. apply (Nat.div_unique n d n1 l); [exact Hl | unfold n; lia]. }
  assert (M1 : n mod d = l).
  { symmetry. apply (Nat.mod_unique n d n1 l); [exact Hl | unfold n; lia]. }
  assert (E2 : n1 / c = n2).
  { symmetry. apply (Nat.div_unique n1 c n2 k); [exact Hk | unfold n1; lia]. }
  assert (M2 : n1 mod c = k).
  { symmetry. apply (Nat.mod_unique n1 c n2 k); [exact Hk | unfold n1; lia]. }
  assert (E3 : n2 / b = i).
  { symmetry. apply (Nat.div_unique n2 b i j); [exact Hj | unfold n2; lia]. }
  assert (M3 : n2 mod b = j).
  { symmetry. apply (Nat.mod_unique n2 b i j); [exact Hj | unfold n2; lia]. }
  rewrite M1, E1, M2, E2, M3, E3. reflexivity.
Qed.

(** Two flat indices of the grid with one cell are equal. *)
Lemma unravel_index_inj (s : shape4) (i j : nat) (x : cell) :
  unravel_index i s = Ok x -> unravel_index j s = Ok x -> i = j.
Proof.
  intros Hi Hj.
  apply unravel_index_inv in Hi. apply unravel_index_inv in Hj.
  destruct Hi as (_ & Hi & _), Hj as (_ & Hj & _). congruence.
Qed.

(** Two cells of the grid with one storage offset are equal. *)
Lemma ravel_inj (s : shape4) (x y : cell) :
  in_shape s x = true -> in_shape s y = true -> ravel s x = ravel s y -> x = y.
Proof.
  intros Hx Hy E.
  pose proof (unravel_ravel s x Hx) as Ux.
  pose proof (unravel_ravel s y Hy) as Uy.
  rewrite E in Ux. congruence.
Qed.

(** ** Reading and writing tensors *)

Section TensorFacts.
Context {scalar : Type} {FS : Scalar scalar}.

Lemma zeros_wf (s : shape4) : tensor_wf s (zeros s).
Proof. split; [reflexivity | apply length_replicate]. Qed.

Lemma tensor_put_wf (s : shape4) (t : tensor) (x : cell) (v : scalar) :
  tensor_wf s t -> tensor_wf s (tensor_put t x v).
Proof.
  intros [Hd Hl]. split; [exact Hd|].
  unfold tensor_put; simpl. rewrite length_insert. exact Hl.
Qed.

Lemma tensor_set_put (s : shape4) (t : tensor) (x : cell) (v : scalar) :
  tensor_wf s t -> in_shape s x = true -> tensor_set t x v = Ok (tensor_put t x v).
Proof.
  intros [Hd _] Hx. unfold tensor_set, tensor_put. subst s. rewrite Hx. reflexivity.
Qed.

Lemma tensor_set_inv (t t' : tensor) (x : cell) (v : scalar) :
  tensor_set t x v = Ok t' -> in_shape (dims t) x = true /\ t' = tensor_put t x v.
Proof.
  unfold tensor_set. destruct (in_shape (dims t) x); [|discriminate].
  intros [= <-]. split; reflexivity.
Qed.

Lemma tensor_get_put_eq (s : shape4) (t : tensor) (x : cell) (v : scalar) :
  tensor_wf s t -> in_shape s x = true -> tensor_get (tensor_put t x v) x = Ok v.
Proof.
  intros [Hd Hl] Hx. unfold tensor_get, tensor_put; simpl.
  rewrite Hd, Hx. rewrite list_lookup_insert_eq; [reflexivity|].
  rewrite Hl. apply ravel_lt. exact Hx.
Qed.

Lemma tensor_get_put_ne (t : tensor) (x y : cell) (v : scalar) :
  in_shape (dims t) x = true -> x <> y ->
  tensor_get (tensor_put t x v) y = tensor_get t y.
Proof.
  intros Hx Hne. unfold tensor_get, tensor_put; simpl.
  destruct (in_shape (dims t) y) eqn:Hy; [|reflexivity].
  rewrite list_lookup_insert_ne; [reflexivity|].
  intros E. apply Hne. eapply ravel_inj; eassumption.
Qed.

Lemma tensor_get_zeros (s : shape4) (x : cell) :
  in_shape s x = true -> tensor_get (zeros s) x = Ok fzero.
Proof.
  intros Hx. unfold tensor_get, zeros; simpl. rewrite Hx.
  rewrite lookup_replicate_2; [reflexivity | apply ravel_lt; exact Hx].
Qed.

End TensorFacts.

(** ** One window *)

Section WindowFacts.
Context {scalar : Type} {FS : Scalar scalar}.

Lemma cell_of_unravel (s : shape4) (i : nat) :
  i < grid_size s -> unravel_index i s = Ok (cell_of s i).
Proof.
  destruct s as [[[a b] c] d]. intros H. unfold unravel_index, cell_of.
  apply Nat.ltb_lt in H. rewrite H. reflexivity.
Qed.

Lemma cell_of_in_shape (s : shape4) (i : nat) :
  i < grid_size s -> in_shape s (cell_of s i) = true.
Proof.
  intros H. pose proof (cell_of_unravel s i H) as U.
  apply unravel_index_inv in U. tauto.
Qed.

Lemma cell_of_inj (s : shape4) (i j : nat) :
  i < grid_size s -> j < grid_size s -> cell_of s i = cell_of s j -> i = j.
Proof.
  intros Hi Hj E. apply (unravel_index_inj s i j (cell_of s i)).
  - apply cell_of_unravel; exact Hi.
  - rewrite E. apply cell_of_unravel; exact Hj.
Qed.

Lemma init_stats_wf (v : loader) : stats_wf (shape v) (init_stats v).
Proof. repeat split; apply length_replicate. Qed.

Lemma apply_window_wf (a : arguments) (s : shape4) (st : stats) (x : cell) :
  stats_wf s st -> stats_wf s (apply_window a st x).
Proof.
  intros (H1 & H2 & H3). repeat split; simpl;
    try (first [apply H1 | apply H2 | apply H3]);
    rewrite length_insert; first [apply H1 | apply H2 | apply H3].
Qed.

(** Inside the grid no write raises, and the iteration is [apply_window]. *)
Lemma process_window_ok (a : arguments) (st : stats) (x : cell) :
  stats_wf (shape (VADL a)) st -> in_shape (shape (VADL a)) x = true ->
  process_window a st x = Ok (apply_window a st x).
Proof.
  intros (H1 & H2 & H3) Hx.
  unfold process_window, apply_window, count_value, duration_value,
    amplitude_value, improper, window_calls, predicted, rounded_count,
    centered_signal, has_pulses.
  destruct (fgt (label_count (get_signal_window (VADL a) x)) fzero); simpl.
  - rewrite (tensor_set_put _ _ _ _ H2 Hx); simpl.
    rewrite (tensor_set_put _ _ _ _ H3 Hx); simpl.
    rewrite (tensor_set_put _ _ _ _ H1 Hx); simpl. reflexivity.
  - destruct (fgt (fround (model_1 a (center (noisy_signals
               (get_signal_window (VADL a) x))))) fzero); simpl;
      rewrite (tensor_set_put _ _ _ _ H1 Hx); simpl;
      rewrite (tensor_set_put _ _ _ _ H2 Hx); simpl;
      rewrite (tensor_set_put _ _ _ _ H3 Hx); simpl; reflexivity.
Qed.

End WindowFacts.

(** ** The loop *)

Section LoopFacts.
Context {scalar : Type} {FS : Scalar scalar}.

Lemma for_each_app {A S : Type} (body : S -> A -> result S) (l1 l2 : list A) (st : S) :
  for_each body (l1 ++ l2) st = (st' ← for_each body l1 st; for_each body l2 st').
Proof.
  revert st. induction l1 as [|x l1 IH]; intros st; simpl; [reflexivity|].
  destruct (body st x) as [st'|e]; simpl; [apply IH | reflexivity].
Qed.

Lemma apply_windows_cons (a : arguments) (i : nat) (l : list nat) (st : stats) :
  apply_windows a (i :: l) st =
  apply_windows a l (apply_window a st (cell_of (shape (VADL a)) i)).
Proof. reflexivity. Qed.

Lemma apply_windows_wf (a : arguments) (l : list nat) (st : stats) :
  stats_wf (shape (VADL a)) st -> stats_wf (shape (VADL a)) (apply_windows a l st).
Proof.
  revert st. induction l as [|i l IH]; intros st H; [exact H|].
  rewrite apply_windows_cons. apply IH. apply apply_window_wf. exact H.
Qed.

(** One iteration, for a positive world size and an index inside the grid. *)
Lemma loop_body_eq (ar : args) (a : arguments) (st : stats) (i : nat) :
  0 < world_size ar ->
  stats_wf (shape (VADL a)) st ->
  i < grid_size (shape (VADL a)) ->
  loop_body ar a st i =
  Ok (if i mod world_size ar =? local_rank ar
      then apply_window a st (cell_of (shape (VADL a)) i) else st).
Proof.
  intros HW Hwf Hi. unfold loop_body.
  destruct (Nat.eqb_spec (world_size ar) 0) as [E|_]; [lia|].
  destruct (i mod world_size ar =? local_rank ar); [|reflexivity].
  rewrite (cell_of_unravel _ i Hi). simpl.
  apply process_window_ok; [exact Hwf | apply cell_of_in_shape; exact Hi].
Qed.

(** With a positive world size and flat indices inside the grid, the loop
    raises nothing and handles the indices of the local shard in order. *)
Lemma for_each_loop_body (ar : args) (a : arguments) (l : list nat) (st : stats) :
  0 < world_size ar ->
  stats_wf (shape (VADL a)) st ->
  (forall i, In i l -> i < grid_size (shape (VADL a))) ->
  for_each (loop_body ar a) l st =
  Ok (apply_windows a
        (List.filter (fun i => i mod world_size ar =? local_rank ar) l) st).
Proof.
  intros HW. revert st. induction l as [|i l IH]; intros st Hwf Hl.
  - reflexivity.
  - cbn [for_each List.filter].
    rewrite loop_body_eq by (first [assumption | apply Hl; left; reflexivity]).
    cbn [mbind result_bind].
    assert (Hl' : forall j, In j l -> j < grid_size (shape (VADL a))).
    { intros j Hj. apply Hl. right. exact Hj. }
    destruct (i mod world_size ar =? local_rank ar).
    + rewrite IH; [reflexivity | apply apply_window_wf; exact Hwf | exact Hl'].
    + apply IH; assumption.
Qed.

Lemma accumulate_eq (ar : args) (a : arguments) :
  0 < world_size ar ->
  total_number_of_windows (VADL a) <= grid_size (shape (VADL a)) ->
  accumulate ar a =
  Ok (apply_windows a (shard ar (total_number_of_windows (VADL a)))
        (init_stats (VADL a))).
Proof.
  intros HW Htot. unfold accumulate, shard.
  apply for_each_loop_body; [exact HW | apply init_stats_wf |].
  intros i Hi. apply in_seq in Hi. lia.
Qed.

Lemma shard_spec (ar : args) (total i : nat) :
  In i (shard ar total) <-> i < total /\ i mod world_size ar = local_rank ar.
Proof.
  unfold shard. rewrite filter_In, in_seq, Nat.eqb_eq. lia.
Qed.

Lemma shard_NoDup (ar : args) (total : nat) : List.NoDup (shard ar total).
Proof. unfold shard. apply List.NoDup_filter. apply seq_NoDup. Qed.

Lemma errors_of_apply_window (q : quantity) (a : arguments) (st : stats) (x : cell) :
  errors_of q (apply_window a st x) = tensor_put (errors_of q st) x (value_of q a x).
Proof. destruct q; reflexivity. Qed.

Lemma errors_of_wf (q : quantity) (s : shape4) (st : @stats scalar) :
  stats_wf s st -> tensor_wf s (errors_of q st).
Proof. intros (H1 & H2 & H3). destruct q; assumption. Qed.

(** A cell that none of the handled indices maps to keeps its value. *)
Lemma apply_windows_frame (q : quantity) (a : arguments) (l : list nat)
  (st : stats) (y : cell) :
  stats_wf (shape (VADL a)) st ->
  (forall i, In i l -> i < grid_size (shape (VADL a))) ->
  (forall i, In i l -> cell_of (shape (VADL a)) i <> y) ->
  tensor_get (errors_of q (apply_windows a l st)) y = tensor_get (errors_of q st) y.
Proof.
  revert st. induction l as [|i l IH]; intros st Hwf Hl Hy; [reflexivity|].
  rewrite apply_windows_cons, IH.
  - rewrite errors_of_apply_window. apply tensor_get_put_ne.
    + destruct (errors_of_wf q _ _ Hwf) as [-> _].
      apply cell_of_in_shape. apply Hl. left. reflexivity.
    + apply Hy. left. reflexivity.
  - apply apply_window_wf. exact Hwf.
  - intros j Hj. apply Hl. right. exact Hj.
  - intros j Hj. apply Hy. right. exact Hj.
Qed.

(** The cell of a handled index holds the value written for it. *)
Lemma apply_windows_written (q : quantity) (a : arguments) (l : list nat)
  (st : stats) (i : nat) :
  stats_wf (shape (VADL a)) st ->
  (forall j, In j l -> j < grid_size (shape (VADL a))) ->
  List.NoDup l -> In i l ->
  tensor_get (errors_of q (apply_windows a l st)) (cell_of (shape (VADL a)) i) =
  Ok (value_of q a (cell_of (shape (VADL a)) i)).
Proof.
  revert st. induction l as [|j l IH]; intros st Hwf Hl Hnd Hi; [destruct Hi|].
  apply List.NoDup_cons_iff in Hnd. destruct Hnd as [Hj Hnd].
  rewrite apply_windows_cons. destruct Hi as [->|Hi].
  - rewrite apply_windows_frame.
    + rewrite errors_of_apply_window.
      apply (tensor_get_put_eq (shape (VADL a))).
      * apply errors_of_wf. exact Hwf.
      * apply cell_of_in_shape. apply Hl. left. reflexivity.
    + apply apply_window_wf. exact Hwf.
    + intros k Hk. apply Hl. right. exact Hk.
    + intros k Hk E. apply cell_of_inj in E.
      * subst k. contradiction.
      * apply Hl. right. exact Hk.
      * apply Hl. left. reflexivity.
  - apply IH; [apply apply_window_wf; exact Hwf | | exact Hnd | exact Hi].
    intros k Hk. apply Hl. right. exact Hk.
Qed.

Lemma apply_windows_improper (a : arguments) (l : list nat) (st : stats) :
  improper_measures (apply_windows a l st) =
  improper_measures st +
  length (List.filter (fun i => improper a (cell_of (shape (VADL a)) i)) l).
Proof.
  revert st. induction l as [|i l IH]; intros st; [simpl; lia|].
  rewrite apply_windows_cons, IH. cbn [List.filter apply_window improper_measures].
  destruct (improper a (cell_of (shape (VADL a)) i)); simpl; lia.
Qed.

Lemma apply_windows_trace (a : arguments) (l : list nat) (st : stats) :
  trace (apply_windows a l st) =
  trace st ++ flat_map (fun i => window_calls a (cell_of (shape (VADL a)) i)) l.
Proof.
  revert st. induction l as [|i l IH]; intros st.
  - simpl. rewrite app_nil_r. reflexivity.
  - rewrite apply_windows_cons, IH. cbn [flat_map apply_window trace].
    rewrite <- app_assoc. reflexivity.
Qed.

End LoopFacts.

(** ** The exact instance satisfies the laws *)

Lemma xrat_round_pos (q : Q) :
  Exact.Qltb 0 (inject_Z (Exact.Qround_even q)) =
  Qle_bool 1 (inject_Z (Exact.Qround_even q)).
Proof.
  generalize (Exact.Qround_even q). intros z.
  unfold Exact.Qltb, Qle_bool, inject_Z; simpl.
  rewrite !Z.mul_1_r.
  destruct (Z.leb_spec z 0), (Z.leb_spec 1 z); simpl; try reflexivity; lia.
Qed.

#[global] Instance xrat_laws : ScalarLaws Exact.xrat_scalar.
Proof.
  split.
  - intros x. reflexivity.
  - reflexivity.
  - intros [| s | q]; simpl; [reflexivity | destruct s; reflexivity |].
    apply xrat_round_pos.
  - discriminate.
Qed.

Example sample_accumulate_rank0 :
  accumulate (Sample.rank 0) Sample.arguments0 = Ok Sample.stats0.
Proof. vm_compute. reflexivity. Qed.

Example sample_accumulate_rank1 :
  accumulate (Sample.rank 1) Sample.arguments0 = Ok Sample.stats1.
Proof. vm_compute. reflexivity. Qed.

Example sample_stats0 :
  data (count_errors Sample.stats0) =
    [Exact.num 0; Exact.num 0; Exact.num 0; Exact.num 0] /\
  data (duration_errors Sample.stats0) =
    [Exact.num 100; Exact.num 0; Exact.num 0; Exact.num 0] /\
  data (amplitude_errors Sample.stats0) =
    [Exact.num 50; Exact.num 0; Exact.num 0; Exact.num 0] /\
  improper_measures Sample.stats0 = 0.
Proof. vm_compute. repeat split. Qed.

Example sample_stats1 :
  data (count_errors Sample.stats1) =
    [Exact.num 0; Exact.XNaN; Exact.num 0; Exact.num 0] /\
  improper_measures Sample.stats1 = 1.
Proof. vm_compute. repeat split. Qed.

(** * The claims *)

Section Claims.
Context {scalar : Type} {FS : Scalar scalar} {FL : ScalarLaws FS}.

(** C1: for a window of the local shard whose label has a positive pulse
    count, the loop of [compute_error_stats] leaves at the window's grid
    cell the percentage errors against the label: the count error
    abs((labels[0] - round(counter)) / labels[0]) * 100, and the duration
    and amplitude errors abs((labels[k] - predictor output scaled by 10^-3,
    respectively 10^-10) / labels[k]) * 100. *)
Theorem C1_pulse_window_errors (ar : args) (a : arguments) (i : nat) (x : cell) :
  0 < world_size ar ->
  total_number_of_windows (VADL a) <= grid_size (shape (VADL a)) ->
  i < total_number_of_windows (VADL a) ->
  i mod world_size ar = local_rank ar ->
  unravel_index i (shape (VADL a)) = Ok x ->
  fgt (label_count (get_signal_window (VADL a) x)) fzero = true ->
  exists st, accumulate ar a = Ok st /\
    let w := get_signal_window (VADL a) x in
    let signal := center (noisy_signals w) in
    let count := fround (model_1 a signal) in
    let outputs := model_2 a signal count in
    tensor_get (count_errors st) x =
      Ok (fmul (fabs (fdiv (fsub (label_count w) count) (label_count w))) fhundred) /\
    tensor_get (duration_errors st) x =
      Ok (fmul (fabs (fdiv (fsub (label_duration w) (fmul (fst outputs) fmilli))
                        (label_duration w))) fhundred) /\
    tensor_get (amplitude_errors st) x =
      Ok (fmul (fabs (fdiv (fsub (label_amplitude w) (fmul (snd outputs) ftenth_nano))
                        (label_amplitude w))) fhundred).
Proof.
  intros HW Htot Hi Hr Hx Hpos.
  assert (Hlt : i < grid_size (shape (VADL a))) by lia.
  rewrite (cell_of_unravel _ i Hlt) in Hx. injection Hx as Hx.
  eexists. split; [apply accumulate_eq; assumption|].
  assert (Hin : In i (shard ar (total_number_of_windows (VADL a)))).
  { apply shard_spec. split; assumption. }
  assert (Hall : forall j, In j (shard ar (total_number_of_windows (VADL a))) ->
                           j < grid_size (shape (VADL a))).
  { intros j Hj. apply shard_spec in Hj. lia. }
  pose proof (fun q => apply_windows_written q a _ (init_stats (VADL a)) i
                (init_stats_wf (VADL a)) Hall (shard_NoDup _ _) Hin) as Hw.
  rewrite Hx in Hw. cbv zeta.
  pose proof (Hw Count) as Hc. pose proof (Hw Duration) as Hd.
  pose proof (Hw Amplitude) as Ha.
  cbn [errors_of value_of] in Hc, Hd, Ha.
  unfold count_value in Hc. unfold duration_value in Hd.
  unfold amplitude_value in Ha.
  unfold has_pulses in Hc, Hd, Ha. rewrite Hpos in Hc, Hd, Ha.
  rewrite fmean_singleton in Hc, Hd, Ha.
  repeat split; assumption.
Qed.

End Claims.

Lemma C1_witness :
  exists st, accumulate (Sample.rank 0) Sample.arguments0 = Ok st /\
    tensor_get (count_errors st) (0, 0, 0, 0) = Ok (Exact.num 0) /\
    tensor_get (duration_errors st) (0, 0, 0, 0) = Ok (Exact.num 100) /\
    tensor_get (amplitude_errors st) (0, 0, 0, 0) = Ok (Exact.num 50).
Proof.
  destruct (C1_pulse_window_errors (Sample.rank 0) Sample.arguments0 0 (0, 0, 0, 0))
    as (st & Hst & Hc & Hd & Ha);
    [simpl; lia | simpl; lia | simpl; lia | reflexivity | reflexivity | reflexivity |].
  exists st. split; [exact Hst|].
  rewrite Hc, Hd, Ha. vm_compute. repeat split.
Defined.

(** ** Windows without pulses *)

Section EmptyWindows.
Context {scalar : Type} {FS : Scalar scalar} {FL : ScalarLaws FS}.

Lemma zero_label_no_pulses (a : arguments) (x : cell) :
  label_count (get_signal_window (VADL a) x) = fzero -> has_pulses a x = false.
Proof. intros H. unfold has_pulses. rewrite H. apply fgt_zero_zero. Qed.

Lemma zero_label_improper (a : arguments) (x : cell) :
  label_count (get_signal_window (VADL a) x) = fzero ->
  improper a x = fle fone (rounded_count a x).
Proof.
  intros H. unfold improper. rewrite (zero_label_no_pulses a x H). simpl.
  unfold rounded_count. apply fround_pos_ge_one.
Qed.

Lemma zero_label_value (q : quantity) (a : arguments) (x : cell) :
  label_count (get_signal_window (VADL a) x) = fzero ->
  value_of q a x = if fle fone (rounded_count a x) then fnan else fzero.
Proof.
  intros H. pose proof (zero_label_no_pulses a x H) as Hp.
  unfold rounded_count at 1. rewrite <- fround_pos_ge_one.
  destruct q; cbn [value_of]; unfold count_value, duration_value, amplitude_value;
    rewrite Hp; reflexivity.
Qed.

(** C2: for a window of the local shard whose label has zero pulses, the
    iteration increments improper_measures by one and the three error
    tensors hold NaN at the window's cell if and only if the rounded output
    of the counter is one or more; otherwise the count is unchanged and the
    three cells hold 0.0. *)
Theorem C2_improper_iff_counted (ar : args) (a : arguments) (i : nat) (x : cell) :
  0 < world_size ar ->
  total_number_of_windows (VADL a) <= grid_size (shape (VADL a)) ->
  i < total_number_of_windows (VADL a) ->
  i mod world_size ar = local_rank ar ->
  unravel_index i (shape (VADL a)) = Ok x ->
  label_count (get_signal_window (VADL a) x) = fzero ->
  let one_or_more :=
    fle fone (fround (model_1 a (center (noisy_signals (get_signal_window (VADL a) x))))) in
  (forall st0, stats_wf (shape (VADL a)) st0 ->
     exists st1, loop_body ar a st0 i = Ok st1 /\
       (improper_measures st1 = improper_measures st0 + 1 <-> one_or_more = true) /\
       (one_or_more = false -> improper_measures st1 = improper_measures st0) /\
       ((forall q, tensor_get (errors_of q st1) x = Ok fnan) <-> one_or_more = true)) /\
  (exists st, accumulate ar a = Ok st /\
     ((forall q, tensor_get (errors_of q st) x = Ok fnan) <-> one_or_more = true) /\
     (one_or_more = false -> forall q, tensor_get (errors_of q st) x = Ok fzero)).
Proof.
  intros HW Htot Hi Hr Hx Hzero one_or_more.
  assert (Hlt : i < grid_size (shape (VADL a))) by lia.
  rewrite (cell_of_unravel _ i Hlt) in Hx. injection Hx as Hx.
  assert (Hone : one_or_more = fle fone (rounded_count a x)) by reflexivity.
  assert (Hxs : in_shape (shape (VADL a)) x = true).
  { rewrite <- Hx. apply cell_of_in_shape. exact Hlt. }
  split.
  - intros st0 Hwf. eexists. split; [apply loop_body_eq; assumption|].
    apply Nat.eqb_eq in Hr. rewrite Hr, Hx.
    assert (Hget : forall q, tensor_get (errors_of q (apply_window a st0 x)) x =
                             Ok (if one_or_more then fnan else fzero)).
    { intros q. rewrite errors_of_apply_window, (zero_label_value q a x Hzero), <- Hone.
      apply (tensor_get_put_eq (shape (VADL a)));
        [apply errors_of_wf; exact Hwf | exact Hxs]. }
    cbn [apply_window improper_measures].
    rewrite (zero_label_improper a x Hzero), <- Hone.
    split; [|split].
    + destruct one_or_more; split; intros E; try reflexivity; try discriminate; lia.
    + intros E. rewrite E. reflexivity.
    + split.
      * intros Hall. destruct one_or_more; [reflexivity|].
        specialize (Hall Count). rewrite Hget in Hall. injection Hall as E.
        symmetry in E. destruct (fnan_neq_zero E).
      * intros E q. rewrite Hget, E. reflexivity.
  - eexists. split; [apply accumulate_eq; assumption|].
    assert (Hin : In i (shard ar (total_number_of_windows (VADL a)))).
    { apply shard_spec. split; assumption. }
    assert (Hall : forall j, In j (shard ar (total_number_of_windows (VADL a))) ->
                             j < grid_size (shape (VADL a))).
    { intros j Hj. apply shard_spec in Hj. lia. }
    assert (Hget : forall q,
              tensor_get (errors_of q (apply_windows a
                 (shard ar (total_number_of_windows (VADL a))) (init_stats (VADL a)))) x =
              Ok (if one_or_more then fnan else fzero)).
    { intros q.
      pose proof (apply_windows_written q a _ (init_stats (VADL a)) i
                    (init_stats_wf (VADL a)) Hall (shard_NoDup _ _) Hin) as Hw.
      rewrite Hx in Hw. rewrite Hw, (zero_label_value q a x Hzero), <- Hone.
      reflexivity. }
    split.
    + split.
      * intros Hq. destruct one_or_more; [reflexivity|].
        specialize (Hq Count). rewrite Hget in Hq. injection Hq as E.
        symmetry in E. destruct (fnan_neq_zero E).
      * intros E q. rewrite Hget, E. reflexivity.
    + intros E q. rewrite Hget, E. reflexivity.
Qed.

End EmptyWindows.

Lemma C2_witness :
  exists st, accumulate (Sample.rank 1) Sample.arguments0 = Ok st /\
    forall q, tensor_get (errors_of q st) (0, 0, 0, 1) = Ok Exact.XNaN.
Proof.
  destruct (C2_improper_iff_counted (Sample.rank 1) Sample.arguments0 1 (0, 0, 0, 1))
    as [_ (st & Hst & Hiff & _)];
    [simpl; lia | simpl; lia | simpl; lia | reflexivity | reflexivity | reflexivity |].
  exists st. split; [exact Hst|]. apply Hiff. vm_compute. reflexivity.
Defined.

(** ** Sharding and the grid *)

Section Sharding.
Context {scalar : Type} {FS : Scalar scalar}.

Lemma loop_body_shard (ar : args) (a : arguments) (st : stats) (i : nat) :
  0 < world_size ar ->
  loop_body ar a st i =
  if i mod world_size ar =? local_rank ar
  then x ← unravel_index i (shape (VADL a)); process_window a st x
  else Ok st.
Proof.
  intros HW. unfold loop_body.
  destruct (Nat.eqb_spec (world_size ar) 0) as [E|_]; [lia | reflexivity].
Qed.

Lemma for_each_shard (ar : args) (a : arguments) (l : list nat) (st : stats) :
  0 < world_size ar ->
  for_each (loop_body ar a) l st =
  for_each (fun st i => x ← unravel_index i (shape (VADL a)); process_window a st x)
    (List.filter (fun i => i mod world_size ar =? local_rank ar) l) st.
Proof.
  intros HW. revert st. induction l as [|i l IH]; intros st; [reflexivity|].
  cbn [for_each List.filter]. rewrite (loop_body_shard ar a st i HW).
  destruct (i mod world_size ar =? local_rank ar).
  - cbn [for_each].
    destruct (x ← unravel_index i (shape (VADL a)); process_window a st x) as [st'|e].
    + cbn [mbind result_bind]. apply IH.
    + reflexivity.
  - cbn [mbind result_bind]. apply IH.
Qed.

Lemma NoDup_map_cells (s : shape4) (l : list nat) :
  (forall i, In i l -> i < grid_size s) -> List.NoDup l ->
  List.NoDup (map (cell_of s) l).
Proof.
  induction l as [|i l IH]; intros Hl Hnd; [constructor|].
  apply List.NoDup_cons_iff in Hnd. destruct Hnd as [Hi Hnd].
  cbn [map]. apply List.NoDup_cons.
  - intros Hin. apply in_map_iff in Hin. destruct Hin as (j & E & Hj).
    apply cell_of_inj in E.
    + subst j. contradiction.
    + apply Hl. right. exact Hj.
    + apply Hl. left. reflexivity.
  - apply IH; [|exact Hnd]. intros j Hj. apply Hl. right. exact Hj.
Qed.

(** C5: with world size W, the process of rank r handles exactly the
    windows whose flat index i satisfies i mod W = r; the shards of two
    different ranks are disjoint, and the shards of the ranks below W cover
    every window. *)
Theorem C5_shards_partition (ar : args) (a : arguments) :
  0 < world_size ar ->
  let total := total_number_of_windows (VADL a) in
  accumulate ar a =
    for_each (fun st i => x ← unravel_index i (shape (VADL a)); process_window a st x)
      (shard ar total) (init_stats (VADL a)) /\
  (forall i, In i (shard ar total) <-> i < total /\ i mod world_size ar = local_rank ar) /\
  (forall r r' i, r <> r' -> In i (shard (with_rank ar r) total) ->
                  ~ In i (shard (with_rank ar r') total)) /\
  (forall i, i < total ->
     exists r, r < world_size ar /\ In i (shard (with_rank ar r) total)).
Proof.
  intros HW total. split; [|split; [|split]].
  - unfold accumulate, shard. apply for_each_shard. exact HW.
  - intros i. apply shard_spec.
  - intros r r' i Hne Hi Hi'. apply shard_spec in Hi. apply shard_spec in Hi'.
    cbn [with_rank world_size local_rank] in Hi, Hi'. lia.
  - intros i Hi. exists (i mod world_size ar). split.
    + apply Nat.mod_upper_bound. lia.
    + apply shard_spec. cbn [with_rank world_size local_rank]. split; [exact Hi | reflexivity].
Qed.

(** C4: the loop runs over every flat index below total_number_of_windows
    and sends each index of the local shard to its row-major coordinates in
    the loader's shape; the mapping is injective, so the cells written by a
    process are pairwise distinct, and when the loader's window count is the
    size of the grid every cell is the cell of exactly one index, handled by
    exactly one rank. *)
Theorem C4_unravel_covers_grid (ar : args) (a : arguments) :
  0 < world_size ar ->
  total_number_of_windows (VADL a) = grid_size (shape (VADL a)) ->
  let s := shape (VADL a) in
  let total := total_number_of_windows (VADL a) in
  (forall i, i < total ->
     exists x, unravel_index i s = Ok x /\ in_shape s x = true /\ ravel s x = i) /\
  (forall i j x, unravel_index i s = Ok x -> unravel_index j s = Ok x -> i = j) /\
  accumulate ar a = Ok (apply_windows a (shard ar total) (init_stats (VADL a))) /\
  List.NoDup (map (cell_of s) (shard ar total)) /\
  (forall x, in_shape s x = true ->
     exists i, i < total /\ unravel_index i s = Ok x /\
       In i (shard (with_rank ar (i mod world_size ar)) total) /\
       forall r j, In j (shard (with_rank ar r) total) ->
                   unravel_index j s = Ok x -> j = i /\ r = i mod world_size ar).
Proof.
  intros HW Htot s total. split; [|split; [|split; [|split]]].
  - intros i Hi. destruct (unravel_index_ok i s) as [x Hx]; [unfold s; lia|].
    exists x. split; [exact Hx|]. apply unravel_index_inv in Hx. tauto.
  - intros i j x. apply unravel_index_inj.
  - apply accumulate_eq; [exact HW | lia].
  - apply NoDup_map_cells; [|apply shard_NoDup].
    intros i Hi. apply shard_spec in Hi. unfold s. lia.
  - intros x Hx. exists (ravel s x).
    assert (Hlt : ravel s x < total).
    { unfold total. rewrite Htot. apply ravel_lt. exact Hx. }
    split; [exact Hlt|]. split; [apply unravel_ravel; exact Hx|]. split.
    + apply shard_spec. cbn [with_rank world_size local_rank].
      split; [exact Hlt | reflexivity].
    + intros r j Hj Hu. apply unravel_index_inv in Hu. destruct Hu as (_ & Hu & _).
      apply shard_spec in Hj. cbn [with_rank world_size local_rank] in Hj.
      split; [symmetry; exact Hu|]. rewrite Hu. symmetry. apply Hj.
Qed.

(** C8: handling the window at a grid cell writes that cell of each of the
    three error tensors, with a value that does not depend on what was
    accumulated before, leaves every other cell of the three tensors as it
    was, and changes improper_measures by zero or one. *)
Theorem C8_window_frame (a : arguments) (st : stats) (x : cell) :
  stats_wf (shape (VADL a)) st ->
  in_shape (shape (VADL a)) x = true ->
  exists st', process_window a st x = Ok st' /\
    (forall q y, y <> x ->
       tensor_get (errors_of q st') y = tensor_get (errors_of q st) y) /\
    (forall q, tensor_get (errors_of q st') x = Ok (value_of q a x)) /\
    (improper_measures st' = improper_measures st \/
     improper_measures st' = improper_measures st + 1).
Proof.
  intros Hwf Hx. exists (apply_window a st x).
  split; [apply process_window_ok; assumption|]. split; [|split].
  - intros q y Hne. rewrite errors_of_apply_window. apply tensor_get_put_ne.
    + destruct (errors_of_wf q _ _ Hwf) as [-> _]. exact Hx.
    + congruence.
  - intros q. rewrite errors_of_apply_window.
    apply (tensor_get_put_eq (shape (VADL a))); [apply errors_of_wf; exact Hwf | exact Hx].
  - cbn [apply_window improper_measures]. destruct (improper a x); [right | left]; reflexivity.
Qed.

End Sharding.

Lemma C5_witness :
  In 3 (shard (Sample.rank 1) 4) /\ ~ In 3 (shard (Sample.rank 0) 4).
Proof.
  destruct (C5_shards_partition (Sample.rank 1) Sample.arguments0)
    as (_ & Hin & Hdis & _); [simpl; lia|].
  assert (H3 : In 3 (shard (Sample.rank 1) 4)).
  { apply (Hin 3). split; [vm_compute; lia | reflexivity]. }
  split; [exact H3|]. apply (Hdis 1 0 3); [lia | exact H3].
Defined.

Lemma C4_witness :
  List.NoDup (map (cell_of (2, 1, 1, 2)) (shard (Sample.rank 0) 4)).
Proof.
  destruct (C4_unravel_covers_grid (Sample.rank 0) Sample.arguments0)
    as (_ & _ & _ & H & _); [simpl; lia | reflexivity | exact H].
Defined.

Lemma C8_witness :
  exists st', process_window Sample.arguments0 (init_stats Sample.vadl) (0, 0, 0, 1) = Ok st' /\
    forall q y, y <> (0, 0, 0, 1) ->
      tensor_get (errors_of q st') y = tensor_get (errors_of q (init_stats Sample.vadl)) y.
Proof.
  destruct (C8_window_frame Sample.arguments0 (init_stats Sample.vadl) (0, 0, 0, 1))
    as (st' & Hst & Hframe & _);
    [repeat split; reflexivity | reflexivity |].
  exists st'. split; [exact Hst | exact Hframe].
Defined.

(** ** The reduction across processes *)

Section Reduction.
Context {scalar : Type} {FS : Scalar scalar}.

Lemma mapM_ok {A B : Type} (f : A -> result B) (g : A -> B) (l : list A) :
  (forall x, In x l -> f x = Ok (g x)) -> mapM f l = Ok (map g l).
Proof.
  induction l as [|x l IH]; intros H; [reflexivity|].
  cbn [mapM map]. rewrite (H x) by (left; reflexivity).
  cbn [mbind result_bind]. fold (mapM f l).
  rewrite IH by (intros y Hy; apply H; right; exact Hy). reflexivity.
Qed.

Lemma tensor_get_wf (s : shape4) (t : @tensor scalar) (x : cell) :
  tensor_wf s t -> in_shape s x = true -> exists v, tensor_get t x = Ok v.
Proof.
  intros [Hd Hl] Hx. unfold tensor_get. rewrite Hd, Hx.
  destruct (lookup_lt_is_Some_2 (data t) (ravel s x)) as [v Hv].
  - rewrite Hl. apply ravel_lt. exact Hx.
  - rewrite Hv. eauto.
Qed.

Lemma tensor_add_wf (s : shape4) (t u : tensor) :
  tensor_wf s t -> tensor_wf s u -> tensor_wf s (tensor_add t u).
Proof.
  intros [Hd Hl] [Hd' Hl']. split; [exact Hd|].
  unfold tensor_add; simpl. rewrite length_zip_with. lia.
Qed.

Lemma tensor_get_add (s : shape4) (t u : tensor) (x : cell) :
  tensor_wf s t -> tensor_wf s u -> in_shape s x = true ->
  tensor_get (tensor_add t u) x =
  (v ← tensor_get t x; w ← tensor_get u x; Ok (fadd v w)).
Proof.
  intros [Hd Hl] [Hd' Hl'] Hx. unfold tensor_get, tensor_add; simpl.
  rewrite Hd, Hd', Hx. rewrite lookup_zip_with.
  destruct (lookup_lt_is_Some_2 (data t) (ravel s x)) as [v Hv];
    [rewrite Hl; apply ravel_lt; exact Hx|].
  destruct (lookup_lt_is_Some_2 (data u) (ravel s x)) as [w Hw];
    [rewrite Hl'; apply ravel_lt; exact Hx|].
  rewrite Hv, Hw. reflexivity.
Qed.

Lemma fold_tensor_add (s : shape4) (rest : list tensor) (t : tensor) (x : cell) :
  tensor_wf s t -> (forall u, In u rest -> tensor_wf s u) -> in_shape s x = true ->
  tensor_wf s (fold_left tensor_add rest t) /\
  tensor_get (fold_left tensor_add rest t) x =
  fold_left (fun acc u => v ← acc; w ← tensor_get u x; Ok (fadd v w))
    rest (tensor_get t x).
Proof.
  revert t. induction rest as [|u rest IH]; intros t Ht Hrest Hx.
  - split; [exact Ht | reflexivity].
  - cbn [fold_left].
    assert (Hu : tensor_wf s u) by (apply Hrest; left; reflexivity).
    destruct (IH (tensor_add t u)) as [Hwf Hget].
    + apply tensor_add_wf; assumption.
    + intros u' Hu'. apply Hrest. right. exact Hu'.
    + exact Hx.
    + split; [exact Hwf|]. rewrite Hget, (tensor_get_add s); auto.
Qed.

Lemma reduce_sum_at (s : shape4) (ts : list tensor) (x : cell) :
  ts <> [] -> (forall u, In u ts -> tensor_wf s u) -> in_shape s x = true ->
  exists t, reduce_tensor_sum_dest ts 0 = Ok t /\ tensor_wf s t /\
    tensor_get t x = sum_at ts x.
Proof.
  intros Hne Hwf Hx. destruct ts as [|t rest]; [congruence|].
  eexists. split; [reflexivity|].
  apply fold_tensor_add; [apply Hwf; left; reflexivity | | exact Hx].
  intros u Hu. apply Hwf. right. exact Hu.
Qed.

End Reduction.

Section Distributed.
Context {scalar : Type} {FS : Scalar scalar}.

Lemma rank_stats_wf (ar : args) (a : arguments) (r : nat) :
  stats_wf (shape (VADL a)) (rank_stats ar a r).
Proof. apply apply_windows_wf. apply init_stats_wf. Qed.

Lemma accumulate_rank (ar : args) (a : arguments) (r : nat) :
  0 < world_size ar ->
  total_number_of_windows (VADL a) <= grid_size (shape (VADL a)) ->
  accumulate (with_rank ar r) a = Ok (rank_stats ar a r).
Proof. intros HW Htot. apply accumulate_eq; assumption. Qed.

Lemma peers_ok (ar : args) (a : arguments) :
  0 < world_size ar ->
  total_number_of_windows (VADL a) <= grid_size (shape (VADL a)) ->
  mapM (fun r => accumulate (with_rank ar r) a) (seq 0 (world_size ar)) =
  Ok (map (rank_stats ar a) (seq 0 (world_size ar))).
Proof.
  intros HW Htot. apply mapM_ok. intros r _. apply accumulate_rank; assumption.
Qed.

(** In distributed mode the result is made of the three folds of
    [tensor_add] over the ranks and of the local count. *)
Lemma compute_error_stats_distributed (ar : args) (a : arguments) :
  0 < world_size ar ->
  total_number_of_windows (VADL a) <= grid_size (shape (VADL a)) ->
  distributed ar = true ->
  exists st,
    accumulate ar a = Ok st /\
    compute_error_stats ar a =
    Ok (ErrorStats
          (fold_left tensor_add
             (map count_errors (map (rank_stats ar a) (seq 1 (world_size ar - 1))))
             (count_errors (rank_stats ar a 0)))
          (fold_left tensor_add
             (map duration_errors (map (rank_stats ar a) (seq 1 (world_size ar - 1))))
             (duration_errors (rank_stats ar a 0)))
          (fold_left tensor_add
             (map amplitude_errors (map (rank_stats ar a) (seq 1 (world_size ar - 1))))
             (amplitude_errors (rank_stats ar a 0)))
          (improper_measures st)).
Proof.
  intros HW Htot Hd. eexists. split; [apply accumulate_eq; assumption|].
  unfold compute_error_stats. rewrite accumulate_eq by assumption.
  cbn [mbind result_bind]. rewrite Hd, peers_ok by assumption.
  cbn [mbind result_bind].
  destruct (world_size ar) as [|n]; [lia|].
  replace (S n - 1) with n by lia. reflexivity.
Qed.

(** C3: in distributed mode each of the three returned tensors holds, at
    every cell, the sum over the ranks of what the rank's tensor holds
    there, and every process receives the same three tensors; when not
    distributed the locally accumulated tensors are returned as they are. *)
Theorem C3_reduced_or_local (ar : args) (a : arguments) :
  0 < world_size ar ->
  total_number_of_windows (VADL a) <= grid_size (shape (VADL a)) ->
  (distributed ar = true ->
     exists es peers,
       compute_error_stats ar a = Ok es /\
       mapM (fun r => accumulate (with_rank ar r) a) (seq 0 (world_size ar)) = Ok peers /\
       (forall q x, in_shape (shape (VADL a)) x = true ->
          tensor_get (reduced_of q es) x = sum_at (map (errors_of q) peers) x /\
          exists v, tensor_get (reduced_of q es) x = Ok v) /\
       (forall r, exists es',
          compute_error_stats (with_rank ar r) a = Ok es' /\
          forall q, reduced_of q es' = reduced_of q es)) /\
  (distributed ar = false ->
     exists st, accumulate ar a = Ok st /\
       compute_error_stats ar a =
       Ok (ErrorStats (count_errors st) (duration_errors st) (amplitude_errors st)
             (improper_measures st))).
Proof.
  intros HW Htot. split; intros Hd.
  - destruct (compute_error_stats_distributed ar a HW Htot Hd) as (st & Hst & Hes).
    eexists. exists (map (rank_stats ar a) (seq 0 (world_size ar))).
    split; [exact Hes|]. split; [apply peers_ok; assumption|]. split.
    + intros q x Hx.
      assert (Hseq : seq 0 (world_size ar) = 0 :: seq 1 (world_size ar - 1)).
      { destruct (world_size ar) as [|n]; [lia|]. replace (S n - 1) with n by lia.
        reflexivity. }
      rewrite Hseq. cbn [map sum_at].
      assert (Hfold : forall rest,
                tensor_wf (shape (VADL a))
                  (fold_left tensor_add (map (errors_of q) (map (rank_stats ar a) rest))
                     (errors_of q (rank_stats ar a 0))) /\
                tensor_get
                  (fold_left tensor_add (map (errors_of q) (map (rank_stats ar a) rest))
                     (errors_of q (rank_stats ar a 0))) x =
                fold_left (fun acc u => v ← acc; w ← tensor_get u x; Ok (fadd v w))
                  (map (errors_of q) (map (rank_stats ar a) rest))
                  (tensor_get (errors_of q (rank_stats ar a 0)) x)).
      { intros rest. apply fold_tensor_add; [| | exact Hx].
        - apply errors_of_wf. apply rank_stats_wf.
        - intros u Hu. apply in_map_iff in Hu. destruct Hu as (st' & <- & Hst').
          apply in_map_iff in Hst'. destruct Hst' as (r & <- & _).
          apply errors_of_wf. apply rank_stats_wf. }
      destruct (Hfold (seq 1 (world_size ar - 1))) as [Hwf Hget].
      destruct q; cbn [reduced_of errors_of] in *;
        (split; [exact Hget | eapply tensor_get_wf; eassumption]).
    + intros r.
      destruct (compute_error_stats_distributed (with_rank ar r) a HW Htot Hd)
        as (st' & _ & Hes').
      eexists. split; [exact Hes'|]. intros q. destruct q; reflexivity.
  - eexists. split; [apply accumulate_eq; assumption|].
    unfold compute_error_stats. rewrite accumulate_eq by assumption.
    cbn [mbind result_bind]. rewrite Hd. reflexivity.
Qed.

End Distributed.

Lemma C3_witness :
  exists es, compute_error_stats (Sample.rank 0) Sample.arguments0 = Ok es /\
    tensor_get (reduced_count_error es) (0, 0, 0, 1) = Ok Exact.XNaN /\
    tensor_get (reduced_duration_error es) (0, 0, 0, 0) = Ok (Exact.num 100).
Proof.
  destruct (C3_reduced_or_local (Sample.rank 0) Sample.arguments0) as [H _];
    [simpl; lia | simpl; lia |].
  destruct (H eq_refl) as (es & peers & Hes & Hpeers & Hsum & _).
  exists es. split; [exact Hes|].
  assert (Hp : mapM (fun r => accumulate (with_rank (Sample.rank 0) r) Sample.arguments0)
                 (seq 0 (world_size (Sample.rank 0))) =
               Ok [Sample.stats0; Sample.stats1]) by (vm_compute; reflexivity).
  rewrite Hp in Hpeers. injection Hpeers as <-.
  split.
  - destruct (Hsum Count (0, 0, 0, 1) eq_refl) as [Hv _].
    cbn [reduced_of] in Hv. rewrite Hv. vm_compute. reflexivity.
  - destruct (Hsum Duration (0, 0, 0, 0) eq_refl) as [Hv _].
    cbn [reduced_of] in Hv. rewrite Hv. vm_compute. reflexivity.
Defined.

(** ** The improper count is local *)

Section ImproperCount.
Context {scalar : Type} {FS : Scalar scalar}.

Lemma filter_disjoint_length {A : Type} (p f g : A -> bool) (l : list A) :
  (forall x, In x l -> f x = true -> g x = false) ->
  length (List.filter p (List.filter f l)) + length (List.filter p (List.filter g l))
  <= length (List.filter p l).
Proof.
  induction l as [|x l IH]; intros H; [simpl; lia|].
  assert (IH' := IH (fun y Hy => H y (or_intror Hy))).
  pose proof (H x (or_introl eq_refl)) as Hx.
  cbn [List.filter].
  destruct (f x) eqn:Hf.
  - rewrite (Hx eq_refl). cbn [List.filter]. destruct (p x); simpl; lia.
  - destruct (g x); cbn [List.filter]; destruct (p x); simpl; lia.
Qed.

Lemma rank_stats_improper (ar : args) (a : arguments) (r : nat) :
  improper_measures (rank_stats ar a r) =
  length (List.filter (fun i => improper a (cell_of (shape (VADL a)) i))
            (shard (with_rank ar r) (total_number_of_windows (VADL a)))).
Proof. unfold rank_stats. rewrite apply_windows_improper. reflexivity. Qed.

(** C9: in distributed mode the returned improper_measures is the count of
    the local loop only, the number of improper windows of the local shard;
    whenever the loop of another rank counts at least one improper window,
    the returned value is below the number of improper windows of the whole
    validation set. *)
Theorem C9_improper_count_is_local (ar : args) (a : arguments) :
  0 < world_size ar ->
  total_number_of_windows (VADL a) <= grid_size (shape (VADL a)) ->
  distributed ar = true ->
  let s := shape (VADL a) in
  let total := total_number_of_windows (VADL a) in
  exists es st,
    compute_error_stats ar a = Ok es /\
    accumulate ar a = Ok st /\
    returned_improper_measures es = improper_measures st /\
    improper_measures st =
      length (List.filter (fun i => improper a (cell_of s i)) (shard ar total)) /\
    forall r' st',
      r' <> local_rank ar ->
      accumulate (with_rank ar r') a = Ok st' ->
      0 < improper_measures st' ->
      returned_improper_measures es <
      length (List.filter (fun i => improper a (cell_of s i)) (seq 0 total)).
Proof.
  intros HW Htot Hd s total.
  destruct (compute_error_stats_distributed ar a HW Htot Hd) as (st & Hst & Hes).
  eexists. exists st. split; [exact Hes|]. split; [exact Hst|].
  split; [reflexivity|].
  assert (Hlocal : improper_measures st =
            length (List.filter (fun i => improper a (cell_of s i)) (shard ar total))).
  { rewrite accumulate_eq in Hst by assumption. injection Hst as <-.
    rewrite apply_windows_improper. reflexivity. }
  split; [exact Hlocal|].
  intros r' st' Hne Hst' Hpos.
  rewrite accumulate_rank in Hst' by assumption. injection Hst' as <-.
  rewrite rank_stats_improper in Hpos.
  cbn [returned_improper_measures]. rewrite Hlocal.
  pose proof (filter_disjoint_length
                (fun i => improper a (cell_of s i))
                (fun i => i mod world_size ar =? local_rank ar)
                (fun i => i mod world_size ar =? r')
                (seq 0 total)) as Hsum.
  unfold shard in *. cbn [with_rank world_size local_rank] in Hpos.
  fold s total in Hpos.
  assert (Hdis : forall x, In x (seq 0 total) ->
            (x mod world_size ar =? local_rank ar) = true ->
            (x mod world_size ar =? r') = false).
  { intros x _ Hx. apply Nat.eqb_eq in Hx. apply Nat.eqb_neq. lia. }
  specialize (Hsum Hdis). lia.
Qed.

End ImproperCount.

Lemma C9_witness :
  exists es, compute_error_stats (Sample.rank 0) Sample.arguments0 = Ok es /\
    returned_improper_measures es = 0 /\
    returned_improper_measures es <
    length (List.filter (fun i => improper Sample.arguments0 (cell_of (2, 1, 1, 2) i))
              (seq 0 4)).
Proof.
  destruct (C9_improper_count_is_local (Sample.rank 0) Sample.arguments0)
    as (es & st & Hes & Hst & Hret & Hlocal & Hother);
    [simpl; lia | simpl; lia | reflexivity |].
  exists es. split; [exact Hes|]. split.
  - rewrite Hret, Hlocal. vm_compute. reflexivity.
  - apply (Hother 1 (rank_stats (Sample.rank 0) Sample.arguments0 1));
      [simpl; lia | apply accumulate_rank; simpl; lia | vm_compute; lia].
Defined.

(** ** The two networks *)

Section Chaining.
Context {scalar : Type} {FS : Scalar scalar}.

Lemma reshape_column_ok (xs : list scalar) (rows : nat) :
  length xs = rows -> reshape_column xs rows = Ok xs.
Proof. intros H. unfold reshape_column. apply Nat.eqb_eq in H. rewrite H. reflexivity. Qed.

Lemma evaluate_batch_ok (a : arguments) :
  length (get_batch (VADL a)) = batch_size (VADL a) ->
  let signals := map (fun w => center (noisy_signals w)) (get_batch (VADL a)) in
  let counts := map (model_1 a) signals in
  evaluate_batch a =
  Ok (Evaluation (get_batch (VADL a)) counts (where_round_zero counts 0)
        (map fround counts)
        (clear_rows (zip_with (model_2 a) signals (map fround counts))
           (where_round_zero counts 0))
        [CounterCall signals; PredictorCall signals (map fround counts)]).
Proof.
  intros Hlen signals counts. unfold evaluate_batch.
  rewrite reshape_column_ok; [reflexivity|].
  rewrite !length_map. exact Hlen.
Qed.

End Chaining.

(** ** run_model: the statistics loop *)

Section RunModelFacts.
Context {scalar : Type} {FS : Scalar scalar}.

Lemma where_round_zero_spec (l : list scalar) (k i : nat) :
  existsb (Nat.eqb i) (where_round_zero l k) = true <->
  exists n, k <= i /\ l !! (i - k) = Some n /\ feqb (fround n) fzero = true.
Proof.
  revert k. induction l as [|n l IH]; intros k.
  - simpl. split; [discriminate|]. intros (n & _ & H & _). discriminate.
  - cbn [where_round_zero].
    assert (Hrest : existsb (Nat.eqb i) (where_round_zero l (S k)) = true <->
              exists m, k < i /\ l !! (i - S k) = Some m /\ feqb (fround m) fzero = true).
    { rewrite IH. split; intros (m & H1 & H2 & H3); exists m; (split; [lia | tauto]). }
    destruct (feqb (fround n) fzero) eqn:Hn.
    + cbn [existsb]. rewrite orb_true_iff, Hrest, Nat.eqb_eq. split.
      * intros [->|(m & H1 & H2 & H3)].
        -- exists n. rewrite Nat.sub_diag. auto.
        -- exists m. split; [lia|]. split; [|exact H3].
           replace (i - k) with (S (i - S k)) by lia. exact H2.
      * intros (m & H1 & H2 & H3). destruct (Nat.eq_dec i k) as [->|Hne]; [left; reflexivity|].
        right. exists m. split; [lia|]. split; [|exact H3].
        replace (i - k) with (S (i - S k)) in H2 by lia. exact H2.
    + rewrite Hrest. split.
      * intros (m & H1 & H2 & H3). exists m. split; [lia|]. split; [|exact H3].
        replace (i - k) with (S (i - S k)) by lia. exact H2.
      * intros (m & H1 & H2 & H3). destruct (Nat.eq_dec i k) as [->|Hne].
        -- rewrite Nat.sub_diag in H2. injection H2 as <-. congruence.
        -- exists m. split; [lia|]. split; [|exact H3].
           replace (i - k) with (S (i - S k)) in H2 by lia. exact H2.
Qed.

Lemma clear_rows_length (outputs : list (scalar * scalar)) (rows : list nat) :
  length (clear_rows outputs rows) = length outputs.
Proof.
  unfold clear_rows. revert outputs. induction rows as [|r rows IH]; intros outputs.
  - reflexivity.
  - cbn [fold_left]. rewrite IH. apply length_insert.
Qed.

Lemma row_ok {A : Type} (xs : list A) (i : nat) :
  i < length xs -> exists x, xs !! i = Some x /\ row xs i = Ok x.
Proof.
  intros H. destruct (lookup_lt_is_Some_2 xs i H) as [x Hx].
  exists x. split; [exact Hx|]. unfold row. rewrite Hx. reflexivity.
Qed.

(** One iteration of the statistics loop on a row of the batch. *)
Lemma tally_body_ok (ev : evaluation) (n : nat) (t : tally) (i : nat) :
  evaluation_wf ev n -> i < n ->
  exists t', tally_body ev t i = Ok t' /\
    measures t' = measures t + (if proper_row ev i then 1 else 0) /\
    batch_improper_measures t' =
      batch_improper_measures t + (if proper_row ev i then 0 else 1).
Proof.
  intros (Hl & He & Ho) Hi.
  destruct (row_ok (ev_labels ev) i) as (w & Hw & Hrw); [lia|].
  destruct (row_ok (ev_external ev) i) as (e & _ & Hre); [lia|].
  destruct (row_ok (ev_outputs ev) i) as (o & _ & Hro); [lia|].
  unfold tally_body, proper_row. rewrite Hrw, Hw. cbn [mbind result_bind].
  destruct (feqb (label_count w) fzero); cbn [negb orb].
  - destruct (existsb (Nat.eqb i) (zero_pulse_indices ev));
      eexists; (split; [reflexivity|]); cbn [measures batch_improper_measures]; lia.
  - rewrite Hre. cbn [mbind result_bind]. rewrite Hro. cbn [mbind result_bind].
    eexists. split; [reflexivity|]. cbn [measures batch_improper_measures]. lia.
Qed.

Lemma tally_loop_ok (ev : evaluation) (n : nat) (l : list nat) (t : tally) :
  evaluation_wf ev n -> (forall i, In i l -> i < n) ->
  exists t', for_each (tally_body ev) l t = Ok t' /\
    measures t' = measures t + length (List.filter (proper_row ev) l) /\
    batch_improper_measures t' =
      batch_improper_measures t +
      length (List.filter (fun i => negb (proper_row ev i)) l).
Proof.
  intros Hwf. revert t. induction l as [|i l IH]; intros t Hl.
  - exists t. split; [reflexivity|]. simpl. lia.
  - destruct (tally_body_ok ev n t i Hwf) as (t1 & Ht1 & Hm1 & Hi1);
      [apply Hl; left; reflexivity|].
    destruct (IH t1) as (t' & Ht' & Hm' & Hi');
      [intros j Hj; apply Hl; right; exact Hj|].
    exists t'. cbn [for_each]. rewrite Ht1. cbn [mbind result_bind].
    split; [exact Ht'|]. cbn [List.filter].
    destruct (proper_row ev i); cbn [negb length]; lia.
Qed.

End RunModelFacts.

Section Reports.
Context {scalar : Type} {FS : Scalar scalar}.

Lemma lookup_map_Some {A B : Type} (f : A -> B) (l : list A) (i : nat) (x : A) :
  l !! i = Some x -> map f l !! i = Some (f x).
Proof.
  revert i. induction l as [|y l IH]; intros [|i] H; try discriminate.
  - injection H as <-. reflexivity.
  - apply IH. exact H.
Qed.

Lemma filter_length_pos {A : Type} (p : A -> bool) (l : list A) (x : A) :
  In x l -> p x = true -> 0 < length (List.filter p l).
Proof.
  intros Hx Hp. assert (H : In x (List.filter p l)) by (apply filter_In; auto).
  destruct (List.filter p l); [destruct H | simpl; lia].
Qed.

(** The evaluation of a batch of [batch_size] rows has that many rows. *)
Lemma evaluate_batch_wf (a : arguments) (ev : evaluation) :
  length (get_batch (VADL a)) = batch_size (VADL a) ->
  evaluate_batch a = Ok ev ->
  evaluation_wf ev (batch_size (VADL a)).
Proof.
  intros Hlen Hev. rewrite (evaluate_batch_ok a Hlen) in Hev. injection Hev as <-.
  unfold evaluation_wf. cbn [ev_labels ev_external ev_outputs].
  rewrite clear_rows_length, length_zip_with, !length_map. lia.
Qed.

Lemma plot_row_no_zero_division (n : nat) (ev : evaluation) (u : unit) (i : nat) :
  plot_row n ev u i <> Raise ZeroDivisionError.
Proof.
  unfold plot_row, row, py_round.
  destruct (n =? 1); [discriminate|].
  destruct (ev_labels ev !! i) as [w|]; [|discriminate].
  destruct (ev_num_of_pulses ev !! i) as [c|]; [|discriminate].
  cbn [mbind result_bind].
  destruct (fis_nan (label_count w)); [discriminate|].
  destruct (fis_inf (label_count w)); [discriminate|].
  cbn [mbind result_bind].
  destruct (fis_nan c); [discriminate|].
  destruct (fis_inf c); discriminate.
Qed.

(** The subplots never raise ZeroDivisionError. *)
Lemma plot_rows_no_zero_division (n : nat) (ev : evaluation) (l : list nat) :
  for_each (plot_row n ev) l tt <> Raise ZeroDivisionError.
Proof.
  induction l as [|i l IH]; [discriminate|].
  cbn [for_each].
  pose proof (plot_row_no_zero_division n ev tt i) as Hrow.
  destruct (plot_row n ev tt i) as [[]|e]; cbn [mbind result_bind]; assumption.
Qed.

Lemma plot_batch_no_zero_division (a : arguments) (ev : evaluation) :
  plot_batch a ev <> Raise ZeroDivisionError.
Proof.
  unfold plot_batch. destruct (batch_size (VADL a) <? 21); [|discriminate].
  destruct (batch_size (VADL a) =? 0); [discriminate|].
  apply plot_rows_no_zero_division.
Qed.

(** With a positive number of measures the report divides safely. *)
Lemma print_report_no_zero_division (t : tally) :
  0 < measures t -> print_report t <> Raise ZeroDivisionError.
Proof.
  intros H. unfold print_report, py_div.
  destruct (Nat.eqb_spec (measures t) 0) as [E|_]; [lia|].
  destruct (duration_error t), (amplitude_error t), (count_error t);
    cbn [acc_item mbind result_bind]; discriminate.
Qed.

(** C10: the report divides the three accumulated errors by [measures]
    without a guard (with tensor accumulators and no measure the division
    raises); when at least one row of the batch is a proper measure (its
    label is not zero, or its label is zero and the counter rounds to
    zero), [measures] is positive and no division by zero happens. *)
Theorem C10_measures_positive (a : arguments) (i : nat) (w : window_data) :
  length (get_batch (VADL a)) = batch_size (VADL a) ->
  get_batch (VADL a) !! i = Some w ->
  (feqb (label_count w) fzero = false \/
   (feqb (label_count w) fzero = true /\
    feqb (fround (model_1 a (center (noisy_signals w)))) fzero = true)) ->
  (forall c d am n,
     print_report (Tally (TensorValue c) (TensorValue d) (TensorValue am) 0 n) =
     Raise ZeroDivisionError) /\
  exists ev t, evaluate_batch a = Ok ev /\ tally_batch a ev = Ok t /\
    0 < measures t /\
    print_report t <> Raise ZeroDivisionError /\
    run_model a <> Raise ZeroDivisionError.
Proof.
  intros Hlen Hw Hproper. split; [reflexivity|].
  pose proof (evaluate_batch_ok a Hlen) as Hev. cbv zeta in Hev.
  pose proof (evaluate_batch_wf a _ Hlen Hev) as Hwf.
  assert (Hi : i < batch_size (VADL a)).
  { rewrite <- Hlen. eapply lookup_lt_Some. exact Hw. }
  eexists. 
  destruct (tally_loop_ok _ (batch_size (VADL a)) (seq 0 (batch_size (VADL a)))
              init_tally Hwf) as (t & Ht & Hm & _);
    [intros j Hj; apply in_seq in Hj; lia|].
  exists t. split; [exact Hev|]. split; [exact Ht|].
  assert (Hpos : 0 < measures t).
  { rewrite Hm. cbn [init_tally measures Nat.add].
    apply (filter_length_pos _ _ i); [apply in_seq; lia|].
    unfold proper_row. cbn [ev_labels zero_pulse_indices]. rewrite Hw.
    destruct Hproper as [Hne|[_ Hz]].
    - rewrite Hne. reflexivity.
    - apply orb_true_iff. right. apply where_round_zero_spec.
      exists (model_1 a (center (noisy_signals w))).
      split; [lia|]. split; [|exact Hz].
      rewrite Nat.sub_0_r. apply lookup_map_Some.
      apply (lookup_map_Some (fun w0 => center (noisy_signals w0))). exact Hw. }
  split; [exact Hpos|].
  split; [apply print_report_no_zero_division; exact Hpos|].
  unfold run_model. rewrite Hev. cbn [mbind result_bind].
  match goal with
  | |- context [plot_batch a ?e] =>
      pose proof (plot_batch_no_zero_division a e) as Hplot;
      destruct (plot_batch a e) as [u|e']
  end; cbn [mbind result_bind]; [|intros [= ->]; apply Hplot; reflexivity].
  unfold tally_batch in Ht. unfold tally_batch. rewrite Ht. cbn [mbind result_bind].
  apply print_report_no_zero_division. exact Hpos.
Qed.

End Reports.

Lemma C10_witness :
  exists ev t, evaluate_batch Sample.arguments0 = Ok ev /\
    tally_batch Sample.arguments0 ev = Ok t /\ 0 < measures t.
Proof.
  destruct (C10_measures_positive Sample.arguments0 0 Sample.w_pulses)
    as (_ & ev & t & Hev & Ht & Hpos & _);
    [reflexivity | reflexivity | left; vm_compute; reflexivity |].
  exists ev, t. auto.
Defined.

(** C7, at the failing input: the second row of the sample batch has a
    label of zero pulses and a counter output of -1.  [run_model] counts it
    as an improper measure, although the counter does not predict one or
    more pulses, and [compute_error_stats] does not count the same window
    (cell (1, 0, 0, 1)) as improper. *)
Theorem C7_negative_count_is_improper_in_run_model :
  get_batch Sample.vadl !! 1 = Some Sample.w_empty_negative /\
  label_count Sample.w_empty_negative = fzero /\
  fround (model_1 Sample.arguments0 (center (noisy_signals Sample.w_empty_negative))) =
    Exact.num (-1) /\
  fle fone
    (fround (model_1 Sample.arguments0 (center (noisy_signals Sample.w_empty_negative)))) =
    false /\
  (exists ev t, evaluate_batch Sample.arguments0 = Ok ev /\
     tally_batch Sample.arguments0 ev = Ok t /\
     proper_row ev 1 = false /\
     batch_improper_measures t = 1 /\ measures t = 1) /\
  get_signal_window Sample.vadl (1, 0, 0, 1) = Sample.w_empty_negative /\
  improper Sample.arguments0 (1, 0, 0, 1) = false /\
  improper_measures Sample.stats1 = 1.
Proof.
  split; [reflexivity|]. split; [reflexivity|].
  split; [vm_compute; reflexivity|]. split; [vm_compute; reflexivity|].
  split.
  - eexists. eexists. split; [apply evaluate_batch_ok; reflexivity|].
    split; [vm_compute; reflexivity|]. vm_compute. repeat split.
  - split; [reflexivity|]. split; vm_compute; reflexivity.
Qed.

(** * Further properties of [compute_error_stats] *)

Section LoopOutcome.
Context {scalar : Type} {FS : Scalar scalar}.

Lemma unravel_index_out (i : nat) (s : shape4) :
  grid_size s <= i -> unravel_index i s = Raise ValueError.
Proof.
  destruct s as [[[a b] c] d]. intros H. unfold unravel_index.
  destruct (Nat.ltb_spec i (grid_size (a, b, c, d))); [lia | reflexivity].
Qed.

Lemma for_each_windows_ok (a : arguments) (l : list nat) (st : stats) :
  stats_wf (shape (VADL a)) st ->
  (forall i, In i l -> i < grid_size (shape (VADL a))) ->
  for_each (fun st i => x ← unravel_index i (shape (VADL a)); process_window a st x) l st =
  Ok (apply_windows a l st).
Proof.
  revert st. induction l as [|i l IH]; intros st Hwf Hl; [reflexivity|].
  cbn [for_each]. rewrite (cell_of_unravel _ i) by (apply Hl; left; reflexivity).
  cbn [mbind result_bind].
  rewrite process_window_ok;
    [| exact Hwf | apply cell_of_in_shape; apply Hl; left; reflexivity].
  cbn [mbind result_bind]. rewrite apply_windows_cons.
  apply IH; [apply apply_window_wf; exact Hwf|].
  intros j Hj. apply Hl. right. exact Hj.
Qed.

Lemma for_each_windows_raise (a : arguments) (l : list nat) (st : stats) (i : nat) :
  stats_wf (shape (VADL a)) st ->
  In i l -> grid_size (shape (VADL a)) <= i ->
  for_each (fun st i => x ← unravel_index i (shape (VADL a)); process_window a st x) l st =
  Raise ValueError.
Proof.
  revert st. induction l as [|j l IH]; intros st Hwf Hi Hout; [destruct Hi|].
  cbn [for_each].
  destruct (Nat.lt_ge_cases j (grid_size (shape (VADL a)))) as [Hj|Hj].
  - rewrite (cell_of_unravel _ j Hj). cbn [mbind result_bind].
    rewrite process_window_ok; [| exact Hwf | apply cell_of_in_shape; exact Hj].
    cbn [mbind result_bind]. apply IH; [apply apply_window_wf; exact Hwf | | exact Hout].
    destruct Hi as [->|Hi]; [lia | exact Hi].
  - rewrite (unravel_index_out j _ Hj). reflexivity.
Qed.

(** The outcome of the loop for a positive world size: it returns when every
    index of the local shard lies inside the grid, and np.unravel_index
    raises ValueError as soon as one does not. *)
Theorem accumulate_outcome (ar : args) (a : arguments) :
  0 < world_size ar ->
  let total := total_number_of_windows (VADL a) in
  let g := grid_size (shape (VADL a)) in
  ((forall i, In i (shard ar total) -> i < g) ->
     accumulate ar a = Ok (apply_windows a (shard ar total) (init_stats (VADL a)))) /\
  (forall i, In i (shard ar total) -> g <= i -> accumulate ar a = Raise ValueError).
Proof.
  intros HW total g. unfold accumulate. rewrite (for_each_shard ar a _ _ HW).
  fold (shard ar total). split.
  - intros H. apply for_each_windows_ok; [apply init_stats_wf | exact H].
  - intros i Hi Hout. apply (for_each_windows_raise a _ _ i);
      [apply init_stats_wf | exact Hi | exact Hout].
Qed.

(** A process whose rank is not below the world size (a single process
    started with --local_rank 1, say) handles no window: the loop calls no
    network and leaves the tensors of torch.zeros, and without a process
    group these all-zero tensors and the count 0 are the result. *)
Theorem rank_outside_world_handles_nothing (ar : args) (a : arguments) :
  0 < world_size ar -> world_size ar <= local_rank ar ->
  shard ar (total_number_of_windows (VADL a)) = [] /\
  accumulate ar a = Ok (init_stats (VADL a)) /\
  (distributed ar = false ->
   compute_error_stats ar a =
   Ok (ErrorStats (zeros (shape (VADL a))) (zeros (shape (VADL a)))
         (zeros (shape (VADL a))) 0)).
Proof.
  intros HW Hr.
  assert (Hacc : shard ar (total_number_of_windows (VADL a)) = [] /\
                 accumulate ar a = Ok (init_stats (VADL a)));
    [|destruct Hacc as (Hs & Hacc); split; [exact Hs|]; split; [exact Hacc|];
      intros Hd; unfold compute_error_stats; rewrite Hacc, Hd; reflexivity].
  assert (Hs : shard ar (total_number_of_windows (VADL a)) = []).
  { destruct (shard ar (total_number_of_windows (VADL a))) as [|i l] eqn:E; [reflexivity|].
    assert (Hi : In i (shard ar (total_number_of_windows (VADL a))))
      by (rewrite E; left; reflexivity).
    apply shard_spec in Hi. pose proof (Nat.mod_upper_bound i (world_size ar)). lia. }
  split; [exact Hs|].
  unfold accumulate. rewrite (for_each_shard ar a _ _ HW).
  fold (shard ar (total_number_of_windows (VADL a))). rewrite Hs. reflexivity.
Qed.

(** A single process of rank 0 handles every window, in index order. *)
Lemma shard_single (ar : args) (total : nat) :
  world_size ar = 1 -> local_rank ar = 0 -> shard ar total = seq 0 total.
Proof.
  intros HW Hr. unfold shard. rewrite HW, Hr.
  induction (seq 0 total) as [|i l IH]; [reflexivity|].
  cbn [List.filter]. rewrite Nat.mod_1_r. cbn [Nat.eqb]. rewrite IH. reflexivity.
Qed.

(** A cell of the grid whose flat index is not in the local shard still
    holds the 0.0 of torch.zeros in the three local tensors. *)
Theorem unhandled_cells_stay_zero (ar : args) (a : arguments) (x : cell) :
  0 < world_size ar ->
  total_number_of_windows (VADL a) <= grid_size (shape (VADL a)) ->
  in_shape (shape (VADL a)) x = true ->
  ~ In (ravel (shape (VADL a)) x) (shard ar (total_number_of_windows (VADL a))) ->
  exists st, accumulate ar a = Ok st /\
    forall q, tensor_get (errors_of q st) x = Ok fzero.
Proof.
  intros HW Htot Hx Hnot. eexists. split; [apply accumulate_eq; assumption|].
  intros q. rewrite apply_windows_frame.
  - destruct q; apply tensor_get_zeros; exact Hx.
  - apply init_stats_wf.
  - intros i Hi. apply shard_spec in Hi. lia.
  - intros i Hi E. apply Hnot.
    assert (Hlt : i < grid_size (shape (VADL a))) by (apply shard_spec in Hi; lia).
    pose proof (cell_of_unravel _ i Hlt) as Hu. apply unravel_index_inv in Hu.
    destruct Hu as (_ & Hu & _). rewrite E in Hu. rewrite Hu. exact Hi.
Qed.

(** Without a process group (one process, rank 0) and with as many windows
    as the grid has cells, the three returned tensors hold in every cell
    the error of the window of that cell, and the returned count is the
    number of improper windows of the whole validation set. *)
Theorem single_process_result (ar : args) (a : arguments) :
  world_size ar = 1 -> local_rank ar = 0 -> distributed ar = false ->
  total_number_of_windows (VADL a) = grid_size (shape (VADL a)) ->
  exists es, compute_error_stats ar a = Ok es /\
    (forall q x, in_shape (shape (VADL a)) x = true ->
       tensor_get (reduced_of q es) x = Ok (value_of q a x)) /\
    returned_improper_measures es =
    length (List.filter (fun i => improper a (cell_of (shape (VADL a)) i))
              (seq 0 (total_number_of_windows (VADL a)))).
Proof.
  intros HW Hr Hd Htot.
  assert (Hacc : accumulate ar a =
                 Ok (apply_windows a (seq 0 (total_number_of_windows (VADL a)))
                       (init_stats (VADL a)))).
  { rewrite accumulate_eq by lia. rewrite (shard_single ar _ HW Hr). reflexivity. }
  eexists. split; [unfold compute_error_stats; rewrite Hacc, Hd; reflexivity|].
  split.
  - intros q x Hx.
    assert (Hq : reduced_of q
                   (ErrorStats
                      (count_errors (apply_windows a (seq 0 (total_number_of_windows (VADL a)))
                                       (init_stats (VADL a))))
                      (duration_errors (apply_windows a (seq 0 (total_number_of_windows (VADL a)))
                                       (init_stats (VADL a))))
                      (amplitude_errors (apply_windows a (seq 0 (total_number_of_windows (VADL a)))
                                       (init_stats (VADL a))))
                      (improper_measures (apply_windows a (seq 0 (total_number_of_windows (VADL a)))
                                       (init_stats (VADL a))))) =
                 errors_of q (apply_windows a (seq 0 (total_number_of_windows (VADL a)))
                                (init_stats (VADL a)))) by (destruct q; reflexivity).
    cbn [mbind result_bind]. rewrite Hq.
    pose proof (ravel_lt _ _ Hx) as Hlt.
    assert (Hc : cell_of (shape (VADL a)) (ravel (shape (VADL a)) x) = x).
    { pose proof (unravel_ravel _ _ Hx) as U. rewrite (cell_of_unravel _ _ Hlt) in U.
      injection U as U. exact U. }
    rewrite <- Hc.
    apply apply_windows_written.
    + apply init_stats_wf.
    + intros j Hj. apply in_seq in Hj. lia.
    + apply seq_NoDup.
    + apply in_seq. lia.
  - cbn [mbind result_bind returned_improper_measures].
    rewrite apply_windows_improper. reflexivity.
Qed.

End LoopOutcome.

Lemma accumulate_outcome_witness :
  accumulate (Sample.rank 1) Sample.arguments_long = Ok Sample.stats1 /\
  accumulate (Sample.rank 0) Sample.arguments_long = Raise ValueError.
Proof.
  split.
  - destruct (accumulate_outcome (Sample.rank 1) Sample.arguments_long) as [H _];
      [simpl; lia|].
    rewrite H; [vm_compute; reflexivity|].
    intros i Hi. vm_compute in Hi. vm_compute. destruct Hi as [<-|[<-|[]]]; lia.
  - destruct (accumulate_outcome (Sample.rank 0) Sample.arguments_long) as [_ H];
      [simpl; lia|].
    apply (H 4); [vm_compute; right; right; left; reflexivity | vm_compute; lia].
Defined.

Lemma rank_outside_world_witness :
  compute_error_stats Sample.outsider Sample.arguments0 =
  Ok (ErrorStats (zeros (2, 1, 1, 2)) (zeros (2, 1, 1, 2)) (zeros (2, 1, 1, 2)) 0).
Proof.
  destruct (rank_outside_world_handles_nothing Sample.outsider Sample.arguments0)
    as (_ & _ & H); [simpl; lia | simpl; lia |].
  apply H. reflexivity.
Defined.

Lemma single_process_witness :
  exists es, compute_error_stats Sample.single Sample.arguments0 = Ok es /\
    tensor_get (reduced_count_error es) (0, 0, 0, 0) = Ok (Exact.num 0) /\
    tensor_get (reduced_count_error es) (0, 0, 0, 1) = Ok fnan /\
    returned_improper_measures es = 1.
Proof.
  destruct (single_process_result Sample.single Sample.arguments0)
    as (es & Hes & Hv & Hi); [reflexivity | reflexivity | reflexivity | reflexivity |].
  exists es. split; [exact Hes|].
  pose proof (Hv Count (0, 0, 0, 0) eq_refl) as H0.
  pose proof (Hv Count (0, 0, 0, 1) eq_refl) as H1.
  cbn [reduced_of] in H0, H1.
  split; [rewrite H0; vm_compute; reflexivity|].
  split; [rewrite H1; vm_compute; reflexivity|].
  rewrite Hi. vm_compute. reflexivity.
Defined.

Lemma unhandled_cells_witness :
  exists st, accumulate (Sample.rank 0) Sample.arguments0 = Ok st /\
    forall q, tensor_get (errors_of q st) (0, 0, 0, 1) = Ok fzero.
Proof.
  apply (unhandled_cells_stay_zero (Sample.rank 0) Sample.arguments0 (0, 0, 0, 1));
    [simpl; lia | simpl; lia | reflexivity |].
  vm_compute. intros [H|[H|[]]]; discriminate.
Defined.

(** ** The improper counts of all processes *)

Section ImproperTotal.
Context {scalar : Type} {FS : Scalar scalar}.

Lemma list_sum_cons (x : nat) (l : list nat) : list_sum (x :: l) = x + list_sum l.
Proof. reflexivity. Qed.

Lemma sum_indicator (j a n : nat) :
  list_sum (map (fun r => if j =? r then 1 else 0) (seq a n)) =
  if (a <=? j) && (j <? a + n) then 1 else 0.
Proof.
  revert a. induction n as [|n IH]; intros a.
  - cbn [seq map].
    destruct (Nat.leb_spec a j), (Nat.ltb_spec j (a + 0)); simpl; lia.
  - cbn [seq map]. rewrite list_sum_cons, IH.
    destruct (Nat.eqb_spec j a), (Nat.leb_spec (S a) j), (Nat.ltb_spec j (S a + n)),
      (Nat.leb_spec a j), (Nat.ltb_spec j (a + S n)); simpl; lia.
Qed.

Lemma list_sum_map_add {A : Type} (f g : A -> nat) (l : list A) :
  list_sum (map (fun r => f r + g r) l) = list_sum (map f l) + list_sum (map g l).
Proof.
  induction l as [|x l IH]; [reflexivity|].
  cbn [map]. rewrite !list_sum_cons, IH. lia.
Qed.

Lemma list_sum_map_mul {A : Type} (c : nat) (f : A -> nat) (l : list A) :
  list_sum (map (fun r => c * f r) l) = c * list_sum (map f l).
Proof.
  induction l as [|x l IH]; [simpl; lia|].
  cbn [map]. rewrite !list_sum_cons, IH. lia.
Qed.

(** Counting over the shards of all ranks is counting once over all indices. *)
Lemma shards_count (p : nat -> bool) (W : nat) (l : list nat) :
  0 < W ->
  list_sum
    (map (fun r => length (List.filter p (List.filter (fun i => i mod W =? r) l)))
       (seq 0 W)) =
  length (List.filter p l).
Proof.
  intros HW. induction l as [|i l IH].
  - cbn [List.filter length].
    induction (seq 0 W) as [|r rs IHr]; [reflexivity|].
    cbn [map]. rewrite list_sum_cons, IHr. reflexivity.
  - rewrite <- (map_ext
      (fun r => (if p i then 1 else 0) * (if i mod W =? r then 1 else 0) +
                length (List.filter p (List.filter (fun i => i mod W =? r) l)))).
    + rewrite list_sum_map_add, IH, list_sum_map_mul, sum_indicator.
      pose proof (Nat.mod_upper_bound i W).
      destruct (Nat.leb_spec 0 (i mod W)), (Nat.ltb_spec (i mod W) (0 + W));
        cbn [andb]; try lia.
      cbn [List.filter]. destruct (p i); cbn [length]; lia.
    + intros r. cbn [List.filter]. destruct (i mod W =? r); cbn [List.filter].
      * destruct (p i); cbn [length]; lia.
      * destruct (p i); lia.
Qed.

(** The local improper counts of the processes of a world add up to the
    number of improper windows of the whole validation set: summing
    [improper_measures] over the ranks would give the total that the
    function, which returns the local count, does not compute. *)
Theorem improper_counts_add_up (ar : args) (a : arguments) :
  0 < world_size ar ->
  total_number_of_windows (VADL a) <= grid_size (shape (VADL a)) ->
  exists peers,
    mapM (fun r => accumulate (with_rank ar r) a) (seq 0 (world_size ar)) = Ok peers /\
    list_sum (map improper_measures peers) =
    length (List.filter (fun i => improper a (cell_of (shape (VADL a)) i))
              (seq 0 (total_number_of_windows (VADL a)))).
Proof.
  intros HW Htot.
  exists (map (rank_stats ar a) (seq 0 (world_size ar))). split.
  - apply peers_ok; assumption.
  - rewrite map_map.
    rewrite <- (shards_count _ (world_size ar) _ HW).
    apply (f_equal list_sum). apply map_ext. intros r.
    apply rank_stats_improper.
Qed.

End ImproperTotal.

Lemma improper_counts_witness :
  exists peers,
    mapM (fun r => accumulate (with_rank (Sample.rank 0) r) Sample.arguments0) [0; 1] =
      Ok peers /\
    list_sum (map improper_measures peers) = 1.
Proof.
  destruct (improper_counts_add_up (Sample.rank 0) Sample.arguments0)
    as (peers & Hp & Hs); [simpl; lia | simpl; lia |].
  exists peers. split; [exact Hp|]. rewrite Hs. vm_compute. reflexivity.
Defined.

(** * Further properties of [run_model] *)

Section BatchReport.
Context {scalar : Type} {FS : Scalar scalar}.

Lemma clear_rows_lookup (outputs : list (scalar * scalar)) (rows : list nat)
    (i : nat) (o : scalar * scalar) :
  outputs !! i = Some o ->
  clear_rows outputs rows !! i =
  Some (if existsb (Nat.eqb i) rows then (fzero, fzero) else o).
Proof.
  unfold clear_rows. revert outputs o.
  induction rows as [|r rows IH]; intros outputs o Ho; [exact Ho|].
  cbn [fold_left existsb]. destruct (Nat.eqb_spec i r) as [->|Hne].
  - rewrite (IH _ (fzero, fzero)).
    + cbn [orb]. destruct (existsb (Nat.eqb r) rows); reflexivity.
    + apply list_lookup_insert_eq. eapply lookup_lt_Some. exact Ho.
  - cbn [orb]. apply IH. rewrite list_lookup_insert_ne; [exact Ho | congruence].
Qed.

Lemma zero_index_test (a : arguments) (i : nat) (w : window_data) :
  get_batch (VADL a) !! i = Some w ->
  existsb (Nat.eqb i)
    (where_round_zero
       (map (model_1 a) (map (fun w => center (noisy_signals w)) (get_batch (VADL a)))) 0) =
  feqb (fround (model_1 a (center (noisy_signals w)))) fzero.
Proof.
  intros Hw.
  assert (Hc : map (model_1 a)
                 (map (fun w => center (noisy_signals w)) (get_batch (VADL a))) !! i =
               Some (model_1 a (center (noisy_signals w)))).
  { apply lookup_map_Some.
    apply (lookup_map_Some (fun w0 => center (noisy_signals w0))). exact Hw. }
  destruct (feqb (fround (model_1 a (center (noisy_signals w)))) fzero) eqn:E.
  - apply where_round_zero_spec. eexists. split; [lia|].
    rewrite Nat.sub_0_r. split; [exact Hc | exact E].
  - apply not_true_is_false. intros H. apply where_round_zero_spec in H.
    destruct H as (n & _ & Hn & Hz). rewrite Nat.sub_0_r, Hc in Hn.
    injection Hn as <-. congruence.
Qed.

(** outputs[zero_pulse_indices, :] = 0.0: the statistics see the output of
    the predictor for a row, except where the counter rounds to zero, where
    they see a row of zeros. *)
Theorem cleared_predictions (a : arguments) (i : nat) (w : window_data) :
  length (get_batch (VADL a)) = batch_size (VADL a) ->
  get_batch (VADL a) !! i = Some w ->
  exists ev, evaluate_batch a = Ok ev /\
    ev_outputs ev !! i =
    Some (let signal := center (noisy_signals w) in
          let external := fround (model_1 a signal) in
          if feqb external fzero then (fzero, fzero)
          else model_2 a signal external).
Proof.
  intros Hlen Hw. eexists. split; [apply evaluate_batch_ok; exact Hlen|].
  cbn [ev_outputs].
  rewrite (clear_rows_lookup _ _ i
             (model_2 a (center (noisy_signals w))
                (fround (model_1 a (center (noisy_signals w)))))).
  - rewrite (zero_index_test a i w Hw). reflexivity.
  - apply lookup_zip_with_Some. eexists. eexists. split; [reflexivity|]. split.
    + apply (lookup_map_Some (fun w0 => center (noisy_signals w0))). exact Hw.
    + apply (lookup_map_Some fround). apply lookup_map_Some.
      apply (lookup_map_Some (fun w0 => center (noisy_signals w0))). exact Hw.
Qed.

Lemma filter_split_length {A : Type} (p : A -> bool) (l : list A) :
  length (List.filter p l) + length (List.filter (fun x => negb (p x)) l) = length l.
Proof.
  induction l as [|x l IH]; [reflexivity|].
  cbn [List.filter]. destruct (p x); cbn [negb length]; lia.
Qed.

Lemma filter_rows_length {A : Type} (p : A -> bool) (q : nat -> bool) (l : list A) (k : nat) :
  (forall i x, l !! i = Some x -> q (k + i) = p x) ->
  length (List.filter q (seq k (length l))) = length (List.filter p l).
Proof.
  revert k. induction l as [|x l IH]; intros k H; [reflexivity|].
  cbn [length seq List.filter].
  rewrite <- (H 0 x eq_refl), Nat.add_0_r.
  assert (E : length (List.filter q (seq (S k) (length l))) = length (List.filter p l)).
  { apply IH. intros i y Hy. rewrite <- (H (S i) y Hy). f_equal. lia. }
  destruct (q k); cbn [length]; rewrite E; reflexivity.
Qed.

(** Every row of the batch is counted once, as a measure or as an improper
    measure; the improper ones are the rows whose label is 0.0 and whose
    rounded counter output is not 0.0. *)
Theorem batch_rows_counted_once (a : arguments) :
  length (get_batch (VADL a)) = batch_size (VADL a) ->
  exists ev t, evaluate_batch a = Ok ev /\ tally_batch a ev = Ok t /\
    measures t + batch_improper_measures t = batch_size (VADL a) /\
    batch_improper_measures t =
    length (List.filter
              (fun w => feqb (label_count w) fzero &&
                        negb (feqb (fround (model_1 a (center (noisy_signals w)))) fzero))
              (get_batch (VADL a))).
Proof.
  intros Hlen.
  pose proof (evaluate_batch_ok a Hlen) as Hev. cbv zeta in Hev.
  pose proof (evaluate_batch_wf a _ Hlen Hev) as Hwf.
  match type of Hev with _ = Ok ?e => set (ev := e) in * end.
  assert (Hlab : ev_labels ev = get_batch (VADL a)) by reflexivity.
  destruct (tally_loop_ok ev (batch_size (VADL a)) (seq 0 (batch_size (VADL a)))
              init_tally Hwf) as (t & Ht & Hm & Hi);
    [intros j Hj; apply in_seq in Hj; lia|].
  exists ev, t. split; [exact Hev|]. split; [exact Ht|].
  cbn [init_tally measures batch_improper_measures Nat.add] in Hm, Hi.
  split.
  - rewrite Hm, Hi, filter_split_length. apply length_seq.
  - rewrite Hi, <- Hlen. apply filter_rows_length.
    intros i w Hw. cbn [Nat.add]. unfold proper_row. rewrite Hlab, Hw.
    change (zero_pulse_indices ev) with
      (where_round_zero
         (map (model_1 a) (map (fun w => center (noisy_signals w)) (get_batch (VADL a)))) 0).
    rewrite (zero_index_test a i w Hw).
    destruct (feqb (label_count w) fzero),
      (feqb (fround (model_1 a (center (noisy_signals w)))) fzero); reflexivity.
Qed.

Lemma tally_body_accumulators (ev : evaluation) (t t' : tally) (i : nat) :
  tally_body ev t i = Ok t' ->
  is_tensor (count_error t') = is_tensor (count_error t) || labelled_row ev i /\
  is_tensor (duration_error t') = is_tensor (duration_error t) || labelled_row ev i /\
  is_tensor (amplitude_error t') = is_tensor (amplitude_error t) || labelled_row ev i.
Proof.
  unfold tally_body, labelled_row, row.
  destruct (ev_labels ev !! i) as [w|]; [|discriminate].
  cbn [mbind result_bind].
  destruct (feqb (label_count w) fzero); cbn [negb].
  - destruct (existsb (Nat.eqb i) (zero_pulse_indices ev)); intros [= <-];
      cbn [count_error duration_error amplitude_error];
      rewrite !orb_false_r; auto.
  - destruct (ev_external ev !! i) as [e|]; [|discriminate].
    cbn [mbind result_bind].
    destruct (ev_outputs ev !! i) as [o|]; [|discriminate].
    cbn [mbind result_bind]. intros [= <-].
    cbn [count_error duration_error amplitude_error].
    rewrite !orb_true_r.
    destruct (count_error t), (duration_error t), (amplitude_error t); auto.
Qed.

Lemma tally_loop_accumulators (ev : evaluation) (l : list nat) (t t' : tally) :
  for_each (tally_body ev) l t = Ok t' ->
  is_tensor (count_error t') = is_tensor (count_error t) || existsb (labelled_row ev) l /\
  is_tensor (duration_error t') =
    is_tensor (duration_error t) || existsb (labelled_row ev) l /\
  is_tensor (amplitude_error t') =
    is_tensor (amplitude_error t) || existsb (labelled_row ev) l.
Proof.
  revert t. induction l as [|i l IH]; intros t H.
  - injection H as <-. cbn [existsb]. rewrite !orb_false_r. auto.
  - cbn [for_each] in H. destruct (tally_body ev t i) as [t1|e] eqn:E; [|discriminate].
    cbn [mbind result_bind] in H.
    destruct (tally_body_accumulators _ _ _ _ E) as (H1 & H2 & H3).
    destruct (IH _ H) as (G1 & G2 & G3).
    cbn [existsb]. rewrite G1, G2, G3, H1, H2, H3, !orb_assoc. auto.
Qed.

Lemma existsb_rows {A : Type} (p : A -> bool) (q : nat -> bool) (l : list A) (k : nat) :
  (forall i x, l !! i = Some x -> q (k + i) = p x) ->
  existsb q (seq k (length l)) = existsb p l.
Proof.
  revert k. induction l as [|x l IH]; intros k H; [reflexivity|].
  cbn [length seq existsb].
  rewrite <- (H 0 x eq_refl), Nat.add_0_r. f_equal.
  apply IH. intros i y Hy. rewrite <- (H (S i) y Hy). f_equal. lia.
Qed.

Lemma lookup_In {A : Type} (l : list A) (i : nat) (x : A) :
  l !! i = Some x -> In x l.
Proof.
  revert i. induction l as [|y l IH]; intros [|i] H; try discriminate.
  - injection H as <-. left. reflexivity.
  - right. apply (IH i). exact H.
Qed.

Lemma plot_row_ok (a : arguments) (ev : evaluation) (i : nat) (w : window_data) :
  2 <= batch_size (VADL a) ->
  ev_labels ev !! i = Some w ->
  ev_num_of_pulses ev !! i = Some (model_1 a (center (noisy_signals w))) ->
  fis_nan (label_count w) = false -> fis_inf (label_count w) = false ->
  fis_nan (model_1 a (center (noisy_signals w))) = false ->
  fis_inf (model_1 a (center (noisy_signals w))) = false ->
  plot_row (batch_size (VADL a)) ev tt i = Ok tt.
Proof.
  intros Hn Hw Hc H1 H2 H3 H4. unfold plot_row, row, py_round.
  destruct (Nat.eqb_spec (batch_size (VADL a)) 1) as [E|_]; [lia|].
  rewrite Hw, Hc. cbn [mbind result_bind]. rewrite H1, H2.
  cbn [mbind result_bind]. rewrite H3, H4. reflexivity.
Qed.

(** A plottable batch gets its subplots. *)
Lemma plot_batch_ok (a : arguments) (ev : evaluation) :
  length (get_batch (VADL a)) = batch_size (VADL a) ->
  evaluate_batch a = Ok ev -> plottable a -> plot_batch a ev = Ok tt.
Proof.
  intros Hlen Hev Hplot. rewrite (evaluate_batch_ok a Hlen) in Hev. injection Hev as <-.
  unfold plot_batch. destruct (Nat.ltb_spec (batch_size (VADL a)) 21) as [Hlt|_];
    [|reflexivity].
  destruct (Hplot Hlt) as (Hn & Hfin).
  destruct (Nat.eqb_spec (batch_size (VADL a)) 0) as [E|_]; [lia|].
  assert (Hrows : forall l, (forall i, In i l -> i < batch_size (VADL a)) ->
            forall ev', ev_labels ev' = get_batch (VADL a) ->
              ev_num_of_pulses ev' =
                map (model_1 a)
                  (map (fun w => center (noisy_signals w)) (get_batch (VADL a))) ->
              for_each (plot_row (batch_size (VADL a)) ev') l tt = Ok tt).
  { intros l. induction l as [|i l IH]; intros Hl ev' Hlab Hnum; [reflexivity|].
    cbn [for_each].
    destruct (lookup_lt_is_Some_2 (get_batch (VADL a)) i) as [w Hw];
      [rewrite Hlen; apply Hl; left; reflexivity|].
    destruct (Hfin w) as (H1 & H2 & H3 & H4); [apply (lookup_In _ i); exact Hw|].
    rewrite (plot_row_ok a ev' i w Hn); try assumption.
    - cbn [mbind result_bind]. apply IH; [|exact Hlab | exact Hnum].
      intros j Hj. apply Hl. right. exact Hj.
    - rewrite Hlab. exact Hw.
    - rewrite Hnum. apply lookup_map_Some.
      apply (lookup_map_Some (fun w0 => center (noisy_signals w0))). exact Hw. }
  apply Hrows; [|reflexivity|reflexivity].
  intros i Hi. apply in_seq in Hi. lia.
Qed.

(** The outcome of [run_model] on a batch of [batch_size] rows.  It never
    divides by zero.  With one row it stops on [axs[i]] with TypeError.
    When the subplots can be drawn, it prints the report if some row has a
    label with a non-zero pulse count; if every label of the batch is 0.0
    the accumulators are still Python floats and the first [.item()] raises
    AttributeError, whatever the number of measures. *)
Theorem batch_report_outcome (a : arguments) :
  length (get_batch (VADL a)) = batch_size (VADL a) ->
  let labelled :=
    existsb (fun w => negb (feqb (label_count w) fzero)) (get_batch (VADL a)) in
  run_model a <> Raise ZeroDivisionError /\
  (batch_size (VADL a) = 1 -> run_model a = Raise TypeError) /\
  (plottable a ->
     (labelled = true -> exists r, run_model a = Ok r) /\
     (labelled = false -> run_model a = Raise AttributeError)).
Proof.
  intros Hlen labelled.
  pose proof (evaluate_batch_ok a Hlen) as Hev. cbv zeta in Hev.
  pose proof (evaluate_batch_wf a _ Hlen Hev) as Hwf.
  match type of Hev with _ = Ok ?e => set (ev := e) in * end.
  assert (Hlab : ev_labels ev = get_batch (VADL a)) by reflexivity.
  destruct (tally_loop_ok ev (batch_size (VADL a)) (seq 0 (batch_size (VADL a)))
              init_tally Hwf) as (t & Ht & Hm & _);
    [intros j Hj; apply in_seq in Hj; lia|].
  fold (tally_batch a ev) in Ht.
  destruct (tally_loop_accumulators _ _ _ _ Ht) as (Hc & Hd & Ha).
  cbn [init_tally count_error duration_error amplitude_error is_tensor orb] in Hc, Hd, Ha.
  assert (Hl : existsb (labelled_row ev) (seq 0 (batch_size (VADL a))) = labelled).
  { rewrite <- Hlen. apply existsb_rows. intros i w Hw. cbn [Nat.add].
    unfold labelled_row. rewrite Hlab, Hw. reflexivity. }
  rewrite Hl in Hc, Hd, Ha.
  assert (Hpos : labelled = true -> 0 < measures t).
  { intros E. rewrite Hm. cbn [init_tally measures Nat.add].
    rewrite <- Hl in E. apply existsb_exists in E. destruct E as (i & Hi & Hrow).
    apply (filter_length_pos _ _ i Hi).
    unfold labelled_row in Hrow. unfold proper_row.
    destruct (ev_labels ev !! i) as [w|]; [|discriminate].
    rewrite Hrow. reflexivity. }
  assert (Hprint : labelled = true -> exists r, print_report t = Ok r).
  { intros E. specialize (Hpos E). rewrite E in Hc, Hd, Ha.
    unfold print_report, py_div.
    destruct (Nat.eqb_spec (measures t) 0) as [Z|_]; [lia|].
    destruct (count_error t); [discriminate|].
    destruct (duration_error t); [discriminate|].
    destruct (amplitude_error t); [discriminate|].
    cbn [acc_item mbind result_bind]. eexists. reflexivity. }
  assert (Hattr : labelled = false -> print_report t = Raise AttributeError).
  { intros E. rewrite E in Hd. unfold print_report.
    destruct (duration_error t); [reflexivity | discriminate]. }
  assert (Hrun : forall u, plot_batch a ev = Ok u -> run_model a = print_report t).
  { intros u Hu. unfold run_model. rewrite Hev. cbn [mbind result_bind].
    rewrite Hu. cbn [mbind result_bind]. rewrite Ht. reflexivity. }
  split; [|split].
  - pose proof (plot_batch_no_zero_division a ev) as Hnz.
    destruct (plot_batch a ev) as [u|e] eqn:Hp.
    + rewrite (Hrun u eq_refl). destruct labelled.
      * destruct (Hprint eq_refl) as (r & Hr). rewrite Hr. discriminate.
      * rewrite (Hattr eq_refl). discriminate.
    + unfold run_model. rewrite Hev. cbn [mbind result_bind]. rewrite Hp.
      cbn [mbind result_bind]. intros [= ->]. apply Hnz. reflexivity.
  - intros H1. unfold run_model. rewrite Hev. cbn [mbind result_bind].
    unfold plot_batch, plot_row. rewrite H1. reflexivity.
  - intros Hplot. rewrite (Hrun tt (plot_batch_ok a ev Hlen Hev Hplot)).
    split; assumption.
Qed.

End BatchReport.

Lemma cleared_predictions_witness :
  exists ev, evaluate_batch Sample.arguments_empty = Ok ev /\
    ev_outputs ev = [(fzero, fzero); (Exact.num 1000, Exact.num 10000000000)].
Proof.
  destruct (cleared_predictions Sample.arguments_empty 0 Sample.w_empty)
    as (ev & Hev & _); [reflexivity | reflexivity |].
  exists ev. split; [exact Hev|].
  rewrite (evaluate_batch_ok Sample.arguments_empty eq_refl) in Hev.
  injection Hev as <-. vm_compute. reflexivity.
Defined.

Lemma batch_rows_counted_once_witness :
  exists ev t, evaluate_batch Sample.arguments0 = Ok ev /\
    tally_batch Sample.arguments0 ev = Ok t /\
    measures t + batch_improper_measures t = 2 /\ batch_improper_measures t = 1.
Proof.
  destruct (batch_rows_counted_once Sample.arguments0) as (ev & t & Hev & Ht & Hs & Hi);
    [reflexivity|].
  exists ev, t. split; [exact Hev|]. split; [exact Ht|]. split; [exact Hs|].
  rewrite Hi. vm_compute. reflexivity.
Defined.

Lemma batch_report_witness :
  run_model Sample.arguments_empty = Raise AttributeError.
Proof.
  destruct (batch_report_outcome Sample.arguments_empty) as (_ & _ & H); [reflexivity|].
  apply H; [|vm_compute; reflexivity].
  intros _. split; [simpl; lia|].
  intros w [<-|[<-|[]]]; vm_compute; auto.
Defined.

(** * [plot_stats]: where the bars stand *)

Section Bars.
Context {A : Type}.

Lemma concat_rows_lookup {B : Type} (rows : list (list B)) (m q r : nat) :
  (forall row, In row rows -> length row = m) -> r < m ->
  concat rows !! (q * m + r) = rows !! q ≫= (fun row => row !! r).
Proof.
  intros Hrows Hr. revert q. induction rows as [|row rows IH]; intros q.
  - reflexivity.
  - assert (Hm : length row = m) by (apply Hrows; left; reflexivity).
    cbn [concat]. destruct q as [|q].
    + cbn [Nat.mul Nat.add]. rewrite lookup_app_l by lia. reflexivity.
    + rewrite lookup_app_r by (rewrite Hm; simpl; lia).
      replace (S q * m + r - length row) with (q * m + r) by (rewrite Hm; simpl; lia).
      rewrite IH; [reflexivity|]. intros row' H'. apply Hrows. right. exact H'.
Qed.

Lemma lookup_seq_map {B : Type} (f : nat -> B) (n i : nat) :
  i < n -> map f (seq 0 n) !! i = Some (f i).
Proof.
  intros H. apply lookup_map_Some. rewrite lookup_seq_lt by exact H. reflexivity.
Qed.

Lemma bar3d_lookup (x y : list nat) (top : list A) (k a b : nat) (t : A) :
  x !! k = Some a -> y !! k = Some b -> top !! k = Some t ->
  bar3d x y top !! k = Some (Bar a b t).
Proof.
  revert y top k. induction x as [|a' x IH]; intros [|b' y] [|t' top] [|k];
    try discriminate.
  - intros [= ->] [= ->] [= ->]. reflexivity.
  - intros Hx Hy Ht. cbn [bar3d]. exact (IH y top k Hx Hy Ht).
Qed.

Lemma bar3d_length (x y : list nat) (top : list A) (n : nat) :
  length x = n -> length y = n -> length top = n -> length (bar3d x y top) = n.
Proof.
  revert y top n. induction x as [|a x IH]; intros [|b y] [|t top] [|n];
    try discriminate; [reflexivity|].
  cbn [bar3d length]. intros [= Hx] [= Hy] [= Ht]. f_equal. apply IH; assumption.
Qed.

Lemma concat_rows_length {B : Type} (rows : list (list B)) (m : nat) :
  (forall row, In row rows -> length row = m) -> length (concat rows) = length rows * m.
Proof.
  intros H. induction rows as [|row rows IH]; [reflexivity|].
  cbn [concat length]. rewrite length_app, IH, (H row); [simpl; lia | left; reflexivity|].
  intros row' H'. apply H. right. exact H'.
Qed.

Lemma duration_bars_lookup (mean : nat -> nat -> nat -> A) (Cnp Dnp i k : nat) :
  k < Cnp * Dnp ->
  length (duration_bars mean Cnp Dnp i) = Cnp * Dnp /\
  duration_bars mean Cnp Dnp i !! k =
  Some (Bar (k mod Cnp) (k / Cnp) (mean (k / Dnp) i (k mod Dnp))).
Proof.
  intros Hk.
  assert (HC : 0 < Cnp) by (destruct Cnp; simpl in Hk; lia).
  assert (HD : 0 < Dnp) by (destruct Dnp; lia).
  assert (Hq1 : k / Cnp < Dnp) by (apply Nat.Div0.div_lt_upper_bound; lia).
  assert (Hq2 : k / Dnp < Cnp) by (apply Nat.Div0.div_lt_upper_bound; lia).
  pose proof (Nat.mod_upper_bound k Cnp ltac:(lia)) as Hr1.
  pose proof (Nat.mod_upper_bound k Dnp ltac:(lia)) as Hr2.
  unfold duration_bars, meshgrid, arange, ravel_rows, duration_slice. split.
  - apply bar3d_length.
    + rewrite (concat_rows_length _ Cnp).
      * rewrite length_map, length_seq. lia.
      * intros row Hrow. apply in_map_iff in Hrow. destruct Hrow as (y & <- & _).
        apply length_seq.
    + rewrite (concat_rows_length _ Cnp).
      * rewrite length_map, length_seq. lia.
      * intros row Hrow. apply in_map_iff in Hrow. destruct Hrow as (y & <- & _).
        rewrite length_map. apply length_seq.
    + rewrite (concat_rows_length _ Dnp).
      * rewrite length_map, length_seq. lia.
      * intros row Hrow. apply in_map_iff in Hrow. destruct Hrow as (y & <- & _).
        rewrite length_map. apply length_seq.
  - apply bar3d_lookup.
    + rewrite (Nat.div_mod_eq k Cnp) at 1. rewrite (Nat.mul_comm Cnp).
      rewrite (concat_rows_lookup _ Cnp).
      * rewrite (lookup_seq_map _ Dnp) by exact Hq1. cbn [mbind option_bind].
        rewrite lookup_seq_lt by exact Hr1. reflexivity.
      * intros row Hrow. apply in_map_iff in Hrow. destruct Hrow as (y & <- & _).
        apply length_seq.
      * exact Hr1.
    + rewrite (Nat.div_mod_eq k Cnp) at 1. rewrite (Nat.mul_comm Cnp).
      rewrite (concat_rows_lookup _ Cnp).
      * rewrite (lookup_seq_map _ Dnp) by exact Hq1. cbn [mbind option_bind].
        apply (lookup_seq_map (fun _ => k / Cnp)). exact Hr1.
      * intros row Hrow. apply in_map_iff in Hrow. destruct Hrow as (y & <- & _).
        rewrite length_map. apply length_seq.
      * exact Hr1.
    + rewrite (Nat.div_mod_eq k Dnp) at 1. rewrite (Nat.mul_comm Dnp).
      rewrite (concat_rows_lookup _ Dnp).
      * rewrite (lookup_seq_map _ Cnp) by exact Hq2. cbn [mbind option_bind].
        apply (lookup_seq_map (fun d => mean (k / Dnp) i d)). exact Hr2.
      * intros row Hrow. apply in_map_iff in Hrow. destruct Hrow as (y & <- & _).
        rewrite length_map. apply length_seq.
      * exact Hr2.
Qed.

(** The chart of duration [i] has one bar per pair (Cnp, Dnp).  The bar
    that stands at x, y (axes 'Cnp' and 'Dnp') is bar number k = y*Cnp + x,
    and its height is the average of the cell with concentration index
    k div Dnp and diameter index k mod Dnp: the positions are enumerated
    with x running fastest, the heights with the diameter running fastest.
    On a square grid the bar at x, y therefore shows the cell of
    concentration y and diameter x. *)
Theorem duration_bars_layout (mean : nat -> nat -> nat -> A) (Cnp Dnp i x y : nat) :
  x < Cnp -> y < Dnp ->
  let k := y * Cnp + x in
  length (duration_bars mean Cnp Dnp i) = Cnp * Dnp /\
  duration_bars mean Cnp Dnp i !! k =
    Some (Bar x y (mean (k / Dnp) i (k mod Dnp))) /\
  (Cnp = Dnp -> duration_bars mean Cnp Dnp i !! k = Some (Bar x y (mean y i x))).
Proof.
  intros Hx Hy k.
  assert (Hk : k < Cnp * Dnp) by (unfold k; nia).
  assert (Hm : k mod Cnp = x).
  { unfold k. rewrite Nat.add_comm, Nat.Div0.mod_add. apply Nat.mod_small. exact Hx. }
  assert (Hd : k / Cnp = y).
  { unfold k. rewrite Nat.add_comm, Nat.div_add by lia.
    rewrite Nat.div_small by exact Hx. reflexivity. }
  destruct (duration_bars_lookup mean Cnp Dnp i k Hk) as (Hlen & Hlook).
  rewrite Hm, Hd in Hlook.
  split; [exact Hlen|]. split; [exact Hlook|].
  intros E. rewrite Hlook. rewrite <- E, Hm, Hd. reflexivity.
Qed.

End Bars.

Lemma duration_bars_witness :
  duration_bars (fun c _ d => (c, d)) 2 4 0 !! 1 = Some (Bar 1 0 (0, 1)).
Proof.
  destruct (duration_bars_layout (fun c _ d => (c, d)) 2 4 0 1 0) as (_ & H & _);
    [lia | lia |].
  exact H.
Defined.

(** * np.unravel_index and the storage offset *)

(** Inside the grid np.unravel_index returns a cell of the grid whose
    row-major offset is the index it was given, and the offset of a cell of
    the grid is unraveled to that cell: indices below the size of the grid
    and cells of the grid are in one-to-one correspondence. *)
Theorem unravel_index_round_trip (s : shape4) (i : nat) (x : cell) :
  i < grid_size s -> in_shape s x = true ->
  (exists y, unravel_index i s = Ok y /\ in_shape s y = true /\ ravel s y = i) /\
  ravel s x < grid_size s /\ unravel_index (ravel s x) s = Ok x.
Proof.
  intros Hi Hx. split.
  - destruct (unravel_index_ok i s Hi) as (y & Hy). exists y.
    destruct (unravel_index_inv i s y Hy) as (_ & Hr & Hs). auto.
  - split; [apply ravel_lt; exact Hx | apply unravel_ravel; exact Hx].
Qed.

Lemma unravel_index_round_trip_witness :
  unravel_index 37 (3, 2, 4, 5) = Ok (0, 1, 3, 2) /\
  ravel (3, 2, 4, 5) (0, 1, 3, 2) = 37.
Proof.
  destruct (unravel_index_round_trip (3, 2, 4, 5) 37 (0, 1, 3, 2)) as (_ & _ & H);
    [vm_compute; lia | reflexivity |].
  split; [exact H | reflexivity].
Defined.

(** * The two networks, chained *)

Section ChainedValues.
Context {scalar : Type} {FS : Scalar scalar}.

(** C6 (as amended): in [compute_error_stats] every window of the local
    shard whose label has a positive pulse count gets two chained
    evaluations: the errors stored at its cell are computed from the output
    of the predictor on the mean-centered noisy signal, with the rounded
    output of the counter on that same signal as its external input; a
    window whose label is not positive gets the counter only: what is
    stored at its cell is NaN or 0.0 by the sign of the rounded count.  In
    [run_model] the external input of every row of the batch is the rounded
    output of the counter on the centered signal of the row, and the row of
    outputs is the output of the predictor on that signal and that input
    (zeros where the count rounds to zero). *)
Theorem C6_chained_evaluations (ar : args) (a : arguments) :
  0 < world_size ar ->
  total_number_of_windows (VADL a) <= grid_size (shape (VADL a)) ->
  length (get_batch (VADL a)) = batch_size (VADL a) ->
  (exists st, accumulate ar a = Ok st /\
     (forall i, In i (shard ar (total_number_of_windows (VADL a))) ->
        let x := cell_of (shape (VADL a)) i in
        let w := get_signal_window (VADL a) x in
        let signal := center (noisy_signals w) in
        let external := fround (model_1 a signal) in
        let outputs := model_2 a signal external in
        if fgt (label_count w) fzero then
          tensor_get (count_errors st) x =
            Ok (fmean [pct_error (label_count w) external]) /\
          tensor_get (duration_errors st) x =
            Ok (fmean [pct_error (label_duration w) (fmul (fst outputs) fmilli)]) /\
          tensor_get (amplitude_errors st) x =
            Ok (fmean [pct_error (label_amplitude w) (fmul (snd outputs) ftenth_nano)])
        else
          forall q, tensor_get (errors_of q st) x =
                    Ok (if fgt external fzero then fnan else fzero)) /\
     trace st =
     flat_map
       (fun i =>
          let w := get_signal_window (VADL a) (cell_of (shape (VADL a)) i) in
          let signal := center (noisy_signals w) in
          if fgt (label_count w) fzero
          then [CounterCall [signal];
                PredictorCall [signal] [fround (model_1 a signal)]]
          else [CounterCall [signal]])
       (shard ar (total_number_of_windows (VADL a)))) /\
  (exists ev, evaluate_batch a = Ok ev /\
     (forall i w, get_batch (VADL a) !! i = Some w ->
        let signal := center (noisy_signals w) in
        let external := fround (model_1 a signal) in
        ev_external ev !! i = Some external /\
        ev_outputs ev !! i =
          Some (if feqb external fzero then (fzero, fzero)
                else model_2 a signal external)) /\
     let signals := map (fun w => center (noisy_signals w)) (get_batch (VADL a)) in
     ev_trace ev =
     [CounterCall signals;
      PredictorCall signals (map (fun signal => fround (model_1 a signal)) signals)]).
Proof.
  intros HW Htot Hlen. split.
  - eexists. split; [apply accumulate_eq; assumption|]. split.
    + intros i Hi.
      assert (Hall : forall j, In j (shard ar (total_number_of_windows (VADL a))) ->
                               j < grid_size (shape (VADL a))).
      { intros j Hj. apply shard_spec in Hj. lia. }
      pose proof (fun q => apply_windows_written q a _ (init_stats (VADL a)) i
                    (init_stats_wf (VADL a)) Hall (shard_NoDup _ _) Hi) as Hw.
      cbv zeta.
      pose proof (Hw Count) as Hc. pose proof (Hw Duration) as Hd.
      pose proof (Hw Amplitude) as Ha.
      cbn [errors_of value_of] in Hc, Hd, Ha.
      unfold count_value, rounded_count, centered_signal, has_pulses in Hc.
      unfold duration_value, predicted, rounded_count, centered_signal, has_pulses in Hd.
      unfold amplitude_value, predicted, rounded_count, centered_signal, has_pulses in Ha.
      destruct (fgt (label_count
                  (get_signal_window (VADL a) (cell_of (shape (VADL a)) i))) fzero).
      * repeat split; assumption.
      * intros q. destruct q; cbn [errors_of]; assumption.
    + rewrite apply_windows_trace. reflexivity.
  - eexists. split; [apply evaluate_batch_ok; exact Hlen|]. split.
    + intros i w Hw. cbv zeta. cbn [ev_external ev_outputs]. split.
      * apply (lookup_map_Some fround). apply lookup_map_Some.
        apply (lookup_map_Some (fun w0 => center (noisy_signals w0))). exact Hw.
      * rewrite (clear_rows_lookup _ _ i
                   (model_2 a (center (noisy_signals w))
                      (fround (model_1 a (center (noisy_signals w)))))).
        -- rewrite (zero_index_test a i w Hw). reflexivity.
        -- apply lookup_zip_with_Some. eexists. eexists. split; [reflexivity|]. split.
           ++ apply (lookup_map_Some (fun w0 => center (noisy_signals w0))). exact Hw.
           ++ apply (lookup_map_Some fround). apply lookup_map_Some.
              apply (lookup_map_Some (fun w0 => center (noisy_signals w0))). exact Hw.
    + cbn [ev_trace]. rewrite map_map. reflexivity.
Qed.

End ChainedValues.

Lemma C6_witness :
  exists st, accumulate (Sample.rank 0) Sample.arguments0 = Ok st /\
    tensor_get (count_errors st) (0, 0, 0, 0) = Ok (Exact.num 0) /\
    tensor_get (duration_errors st) (0, 0, 0, 0) = Ok (Exact.num 100) /\
    tensor_get (amplitude_errors st) (0, 0, 0, 0) = Ok (Exact.num 50) /\
    trace st =
    [CounterCall [[Exact.XFin (3 # 2); Exact.XFin (- 3 # 2)]];
     PredictorCall [[Exact.XFin (3 # 2); Exact.XFin (- 3 # 2)]] [Exact.num 2];
     CounterCall [[Exact.num 0; Exact.num 0]]].
Proof.
  destruct (C6_chained_evaluations (Sample.rank 0) Sample.arguments0)
    as [(st & Hst & Hv & Htr) _]; [simpl; lia | simpl; lia | reflexivity |].
  exists st. split; [exact Hst|].
  assert (Hin : In 0 (shard (Sample.rank 0) (total_number_of_windows Sample.vadl)))
    by (vm_compute; left; reflexivity).
  assert (H0 :
    tensor_get (count_errors st) (0, 0, 0, 0) = Ok (Exact.num 0) /\
    tensor_get (duration_errors st) (0, 0, 0, 0) = Ok (Exact.num 100) /\
    tensor_get (amplitude_errors st) (0, 0, 0, 0) = Ok (Exact.num 50))
    by exact (Hv 0 Hin).
  destruct H0 as (Hc & Hd & Ha).
  split; [exact Hc|]. split; [exact Hd|]. split; [exact Ha|].
  rewrite Htr. vm_compute. reflexivity.
Defined.

(** C6 as stated fails: the two windows of rank 1 of the sample set have no
    pulse in their labels, and the predictor is never evaluated for them:
    no call of it is made, and what the loop computes is the same whatever
    the predictor. *)
Lemma C6_counterexample :
  exists st, accumulate (Sample.rank 1) Sample.arguments0 = Ok st /\
    In 1 (shard (Sample.rank 1) (total_number_of_windows Sample.vadl)) /\
    (forall signals external, ~ In (PredictorCall signals external) (trace st)) /\
    forall predictor',
      accumulate (Sample.rank 1)
        (MkArguments Sample.counter predictor' Sample.vadl) = Ok st.
Proof.
  exists Sample.stats1. split; [vm_compute; reflexivity|].
  split; [vm_compute; left; reflexivity|]. split.
  - intros signals external H. vm_compute in H.
    destruct H as [H|[H|[]]]; discriminate.
  - intros predictor'. vm_compute. reflexivity.
Qed.
